(** * Keyword-weighted extractive summarisation

    A shallow embedding of the scoring, selection and summary cells of the
    notebook [Text Summarization (Basic Approach).ipynb].

    Conventions of the embedding.
    - A Python [str] is a [string]; a character is a code point below 256.
    - A Python [float] and a [numpy.float64] are read over the real numbers:
      rounding and overflow are not modelled, but the special values that
      numpy produces instead of raising ([inf], [-inf], [nan]) are.
    - The dictionary [sentence_scores] is an association list in insertion
      order, which is the order its [items()] are enumerated in.
    - A raised exception ends the cell that raises it and every cell after. *)

From Stdlib Require Import List String Ascii Bool Arith ZArith Lia.
From Stdlib Require Import Reals Lra.
From Stdlib Require Import Permutation Sorted.
Import ListNotations.

Local Open Scope string_scope.
Local Open Scope list_scope.

(** ** Exceptions *)

Inductive exn : Set :=
| ZeroDivisionError
| IndexError.

Inductive result (A : Type) : Type :=
| Ok (a : A)
| Raise (e : exn).

Arguments Ok {A} a.
Arguments Raise {A} e.

Definition bind {A B : Type} (m : result A) (k : A -> result B) : result B :=
  match m with
  | Ok a => k a
  | Raise e => Raise e
  end.

Notation "x <- m ;; k" := (bind m (fun x => k))
  (at level 61, m at next level, right associativity).

(** ** Strings *)

(** [str.isspace] on one character, for code points below 256. *)
Definition isspace (c : ascii) : bool :=
  let n := nat_of_ascii c in
  (((9 <=? n) && (n <=? 13)) || ((28 <=? n) && (n <=? 32))
   || (n =? 133) || (n =? 160))%nat.

Definition is_empty (s : string) : bool :=
  match s with
  | EmptyString => true
  | String _ _ => false
  end.

(** [s.split()]: the maximal runs of characters that are not whitespace.
    [cur] is the run being read. *)
Fixpoint split_from (cur s : string) : list string :=
  match s with
  | EmptyString => if is_empty cur then [] else [cur]
  | String c s' =>
      if isspace c
      then (if is_empty cur then split_from EmptyString s'
            else cur :: split_from EmptyString s')
      else split_from (cur ++ String c EmptyString) s'
  end.

Definition split (s : string) : list string := split_from EmptyString s.

(** [s] has no character other than whitespace. *)
Fixpoint all_space (s : string) : bool :=
  match s with
  | EmptyString => true
  | String c s' => isspace c && all_space s'
  end.

(** [keyword in sent]: substring containment. *)
Fixpoint str_in (keyword sent : string) : bool :=
  prefix keyword sent
  || match sent with
     | EmptyString => false
     | String _ sent' => str_in keyword sent'
     end.


(** [s.strip()]. *)
Fixpoint lstrip (s : string) : string :=
  match s with
  | EmptyString => EmptyString
  | String c s' => if isspace c then lstrip s' else s
  end.

Fixpoint rstrip (s : string) : string :=
  match s with
  | EmptyString => EmptyString
  | String c s' =>
      let r := rstrip s' in
      if is_empty r && isspace c then EmptyString else String c r
  end.

Definition strip (s : string) : string := rstrip (lstrip s).

(** ** Numbers *)

Local Open Scope R_scope.

(** The values of a [numpy.float64]. *)
Inductive float64 : Type :=
| Fin (r : R)
| PInf
| NInf
| NaN.

(** The value of [sent_score]: the builtin [float] it is initialised with,
    or the [numpy.float64] it becomes once a logarithm has been added. *)
Inductive number : Type :=
| PyFloat (r : R)
| NpFloat64 (x : float64).

Definition Rltb (a b : R) : bool := if Rlt_dec a b then true else false.
Definition Reqb (a b : R) : bool := if Req_dec_T a b then true else false.

Arguments Rltb : simpl never.
Arguments Reqb : simpl never.

(** [np.log]: [-inf] at zero and [nan] below it, with a warning. *)
Definition np_log (r : R) : float64 :=
  if Rltb 0 r then Fin (ln r)
  else if Reqb r 0 then NInf
  else NaN.

Definition float64_add (a b : float64) : float64 :=
  match a, b with
  | NaN, _ | _, NaN => NaN
  | PInf, NInf | NInf, PInf => NaN
  | PInf, _ | _, PInf => PInf
  | NInf, _ | _, NInf => NInf
  | Fin x, Fin y => Fin (x + y)
  end.

Definition to_float64 (a : number) : float64 :=
  match a with
  | PyFloat r => Fin r
  | NpFloat64 x => x
  end.

(** [a += b] with [b] a [numpy.float64]: the sum is a [numpy.float64]. *)
Definition number_iadd (a : number) (b : float64) : number :=
  NpFloat64 (float64_add (to_float64 a) b).

(** [x / n] for a [numpy.float64] [x]: no exception, a warning at most. *)
Definition float64_div_int (x : float64) (n : nat) : float64 :=
  match x with
  | Fin r =>
      if (n =? 0)%nat
      then (if Rltb 0 r then PInf else if Rltb r 0 then NInf else NaN)
      else Fin (r / INR n)
  | PInf => PInf
  | NInf => NInf
  | NaN => NaN
  end.

(** [a / n]: the builtin [float] raises at zero, [numpy.float64] does not. *)
Definition number_div_int (a : number) (n : nat) : result float64 :=
  match a with
  | PyFloat r =>
      if (n =? 0)%nat then Raise ZeroDivisionError else Ok (Fin (r / INR n))
  | NpFloat64 x => Ok (float64_div_int x n)
  end.

(** [a < b]; every comparison with [nan] is false. *)
Definition float64_ltb (a b : float64) : bool :=
  match a, b with
  | NaN, _ | _, NaN => false
  | Fin x, Fin y => Rltb x y
  | NInf, (Fin _ | PInf) => true
  | Fin _, PInf => true
  | _, _ => false
  end.

(** [int(np.ceil(r))]. *)
Definition np_ceil (r : R) : Z := (- Int_part (- r))%Z.

(** ** Lists *)

(** [sorted(l, key)] compares keys with [<] only and is stable.  On keys in
    a total order every stable sort returns the same list; it is computed
    here by insertion, from the right end of the list. *)
Section Sorting.

Context {A : Type} (lt : A -> A -> bool).

Fixpoint insert (x : A) (l : list A) : list A :=
  match l with
  | [] => [x]
  | y :: l' => if lt y x then y :: insert x l' else x :: l
  end.

Definition sorted (l : list A) : list A := fold_right insert [] l.

(** [sorted(l, key, reverse=True)]: the list is reversed, sorted and
    reversed again, so that equal keys keep their original order. *)
Definition sorted_reverse (l : list A) : list A := rev (sorted (rev l)).

End Sorting.

(** [l[:k]]; a negative [k] counts from the end of the list. *)
Definition slice_to {A : Type} (k : Z) (l : list A) : list A :=
  if (k <? 0)%Z
  then firstn (Z.to_nat (Z.of_nat (List.length l) + k)) l
  else firstn (Z.to_nat k) l.

(** [x in l] for a list of integers. *)
Definition contains (x : nat) (l : list nat) : bool := existsb (Nat.eqb x) l.

(** ** Keyword extraction *)

Definition keyword_entry : Type := string * R.

(** [sorted(yake_keywords, key=lambda tup: tup[1], reverse=False)] *)
Definition yake_keywords_sorted (yake_keywords : list keyword_entry)
  : list keyword_entry :=
  sorted (fun a b => Rltb (snd a) (snd b)) yake_keywords.

(** ** Sentence scoring *)

(** One turn of the loop over the keywords. *)
Definition sent_score_step (sent : string) (sent_score : number)
  (kw : keyword_entry) : number :=
  let (keyword, score) := kw in
  if Reqb score 0 then sent_score
  else if str_in keyword sent
       then number_iadd sent_score (np_log (1 / score))
       else sent_score.

(** The value of [sent_score] after the loop over the keywords. *)
Definition sent_score (kws : list keyword_entry) (sent : string) : number :=
  fold_left (sent_score_step sent) kws (PyFloat 0).

Definition sent_len (sent : string) : nat := List.length (split sent).

(** The value stored at [sentence_scores[sid]]. *)
Definition score_sentence (kws : list keyword_entry) (sent : string)
  : result float64 :=
  number_div_int (sent_score kws sent) (sent_len sent).

(** The loop over [enumerate(sentences_processed)], from index [sid]. *)
Fixpoint sentence_scores_from (sid : nat) (kws : list keyword_entry)
  (sents : list string) : result (list (nat * float64)) :=
  match sents with
  | [] => Ok []
  | sent :: rest =>
      v <- score_sentence kws sent ;;
      d <- sentence_scores_from (S sid) kws rest ;;
      Ok ((sid, v) :: d)
  end.

Definition sentence_scores (kws : list keyword_entry)
  (sentences_processed : list string) : result (list (nat * float64)) :=
  sentence_scores_from 0 kws sentences_processed.

(** [sorted(sentence_scores.items(), key=lambda x: x[1], reverse=True)] *)
Definition sentence_scores_sorted (scores : list (nat * float64))
  : list (nat * float64) :=
  sorted_reverse (fun a b => float64_ltb (snd a) (snd b)) scores.

(** ** Sentence selection *)

(** The selection cell: the best [ceil(summary_size * num_sentences)]
    sentences, as indices in ascending order. *)
Definition top_scored (scores : list (nat * float64)) (summary_size : R)
  (num_sentences : nat) : list nat :=
  let top_sentences :=
    slice_to (np_ceil (summary_size * INR num_sentences))
      (sentence_scores_sorted scores) in
  let top_sentences := map fst top_sentences in
  sorted Nat.ltb top_sentences.

(** The cell that puts the first sentence in front when it is missing. *)
Definition with_first_sentence (top_sentences : list nat) : list nat :=
  if negb (contains 0%nat top_sentences)
  then ([0%nat] ++ top_sentences)%list
  else top_sentences.

Definition top_sentences (scores : list (nat * float64)) (summary_size : R)
  (num_sentences : nat) : list nat :=
  with_first_sentence (top_scored scores summary_size num_sentences).

(** ** Summary generation *)

(** The loop [for idx in top_sentences: print(sentences[idx].strip())]:
    the lines printed, and the exception that ended the loop, if any. *)
Fixpoint print_summary (sentences : list string) (top : list nat)
  : list string * option exn :=
  match top with
  | [] => ([], None)
  | idx :: rest =>
      match nth_error sentences idx with
      | None => ([], Some IndexError)
      | Some s =>
          let (out, e) := print_summary sentences rest in
          (strip s :: out, e)
      end
  end.

(** ** The notebook *)

(** What a run of the cells leaves behind: [sentence_scores] once the
    scoring cell has run to its end, [top_sentences] once the selection and
    first-sentence cells have, the summary lines that were printed, and the
    exception that stopped the run, if any. *)
Record notebook : Type := {
  nb_sentence_scores : option (list (nat * float64));
  nb_top_sentences : option (list nat);
  nb_summary : list string;
  nb_raised : option exn
}.

Section Notebook.

(** The text normalisation of one sentence that [preprocess] obtains from
    the spaCy pipeline [nlp]. *)
Variable normalize : string -> string.

Definition preprocess (sentences : list string) : list string :=
  map normalize sentences.

Definition run (sentences : list string) (yake_keywords : list keyword_entry)
  (summary_size : R) : notebook :=
  let num_sentences := List.length sentences in
  let sentences_processed := preprocess sentences in
  match sentence_scores (yake_keywords_sorted yake_keywords)
          sentences_processed with
  | Raise e =>
      {| nb_sentence_scores := None; nb_top_sentences := None;
         nb_summary := []; nb_raised := Some e |}
  | Ok scores =>
      let top := top_sentences scores summary_size num_sentences in
      let (out, e) := print_summary sentences top in
      {| nb_sentence_scores := Some scores; nb_top_sentences := Some top;
         nb_summary := out; nb_raised := e |}
  end.

End Notebook.

(** ** The score as the specification words it *)

(** A keyword counts for a sentence when its importance is positive and its
    text occurs in the processed sentence. *)
Definition keyword_counts (sent : string) (kw : keyword_entry) : bool :=
  Rltb 0 (snd kw) && str_in (fst kw) sent.

(** The sum of [ln (1 / rawImportance)] over the keywords that count. *)
Definition keyword_sum (kws : list keyword_entry) (sent : string) : R :=
  fold_right Rplus 0
    (map (fun kw => ln (1 / snd kw)) (filter (keyword_counts sent) kws)).

(** The sum divided by the number of tokens. *)
Definition score_spec (kws : list keyword_entry) (sent : string) : R :=
  keyword_sum kws sent / INR (List.length (split sent)).

(** ** A document of four sentences *)

Definition scenario_keywords : list keyword_entry :=
  [("alpha"%string, 0.01); ("beta"%string, 0.5)].

(** A document to run the notebook on; its processed sentences are the
    sentences themselves. *)
Definition example_sentences : list string :=
  ["the first sentence"%string; "a second one"%string;
   "alpha meets beta here"%string; "the last sentence"%string].

(** The scores of that document under [scenario_keywords]. *)
Definition example_score_list : list (nat * float64) :=
  [(0%nat, Fin 0); (1%nat, Fin 0);
   (2%nat, Fin (score_spec scenario_keywords "alpha meets beta here"%string));
   (3%nat, Fin 0)].

(** ** Failing fast *)

(** A run that fails before any scoring: an exception is raised and neither
    the scores nor a selection have been bound. *)
Definition fails_before_scoring (nb : notebook) : Prop :=
  nb_raised nb <> None
  /\ nb_sentence_scores nb = None
  /\ nb_top_sentences nb = None.


(** ** Order of the entries of a list *)

(** [a] stands somewhere before [b] in [l]. *)
Definition before {A : Type} (l : list A) (a b : A) : Prop :=
  exists l1 l2 l3, l = (l1 ++ a :: l2 ++ b :: l3)%list.

(** * Properties *)

(** ** Preprocessing *)

(** [re.sub('\n', ' ', s)] *)
Fixpoint sub_newlines (s : string) : string :=
  match s with
  | EmptyString => EmptyString
  | String c s' =>
      String (if Ascii.eqb c "010"%char then " "%char else c) (sub_newlines s')
  end.

Definition starts_with_space (s : string) : bool :=
  match s with
  | EmptyString => false
  | String c _ => isspace c
  end.

(** [re.sub('\s+', ' ', s)]: every maximal run of whitespace becomes one
    space. *)
Fixpoint sub_spaces (s : string) : string :=
  match s with
  | EmptyString => EmptyString
  | String c s' =>
      if isspace c
      then (if starts_with_space s' then sub_spaces s'
            else String " "%char (sub_spaces s'))
      else String c (sub_spaces s')
  end.

(** Whitespace occurs in [s] only as single spaces. *)
Fixpoint single_spaced (s : string) : bool :=
  match s with
  | EmptyString => true
  | String c s' =>
      (if isspace c
       then Ascii.eqb c " "%char && negb (starts_with_space s')
       else true)
      && single_spaced s'
  end.

(** [sep.join(l)] *)
Fixpoint join (sep : string) (l : list string) : string :=
  match l with
  | [] => EmptyString
  | x :: l' =>
      match l' with
      | [] => x
      | _ :: _ => (x ++ sep ++ join sep l')%string
      end
  end.

(** The body of the loop of [preprocess].  [nlp] gives the texts of the
    tokens that the spaCy pipeline finds, [lower] is [str.lower]. *)
Definition preprocess_sentence (nlp : string -> list string)
  (lower : string -> string) (s : string) : string :=
  let processed := sub_newlines s in
  let processed := join " " (map lower (nlp processed)) in
  sub_spaces processed.

(** [text_processed = ' '.join(sentences_processed)], the text the keywords
    are extracted from. *)
Definition text_processed (sentences_processed : list string) : string :=
  join " " sentences_processed.

(** [sentences = [ str(s).strip() for s in doc.sents ]], from the texts of
    the sentences that spaCy finds. *)
Definition stripped_sentences (doc_sents : list string) : list string :=
  map strip doc_sents.

(** ** The Python operations on small inputs *)

Example split_runs :
  split "  alpha  beta gamma " = ["alpha"; "beta"; "gamma"]%string.
Proof. reflexivity. Qed.

Example split_blank : split "   " = [] /\ split "" = [].
Proof. split; reflexivity. Qed.

Example str_in_inside : str_in "ab" "aab" = true /\ str_in "abc" "ab" = false.
Proof. split; reflexivity. Qed.

Example str_in_empty_keyword : str_in "" "" = true.
Proof. reflexivity. Qed.

Example strip_both_ends : strip "  a b  " = "a b"%string.
Proof. reflexivity. Qed.

Example slice_to_count : slice_to 2 [5; 6; 7]%nat = [5; 6]%nat.
Proof. reflexivity. Qed.

Example slice_to_beyond : slice_to 7 [5; 6; 7]%nat = [5; 6; 7]%nat.
Proof. reflexivity. Qed.

Example slice_to_negative :
  slice_to (-1) [5; 6; 7]%nat = [5; 6]%nat
  /\ slice_to (-5) [5; 6; 7]%nat = [].
Proof. split; reflexivity. Qed.

Example sorted_indices : sorted Nat.ltb [3; 1; 2; 0]%nat = [0; 1; 2; 3]%nat.
Proof. reflexivity. Qed.

(** Equal keys keep their order under [reverse=True]. *)
Example sorted_reverse_ties :
  sorted_reverse (fun a b => snd a <? snd b)%nat
    [(0, 0); (1, 0); (2, 5); (3, 0); (4, 5)]%nat
  = [(2, 5); (4, 5); (0, 0); (1, 0); (3, 0)]%nat.
Proof. reflexivity. Qed.

(** ** Comparisons and rounding *)

Lemma Rltb_true (a b : R) : Rltb a b = true <-> a < b.
Proof.
  unfold Rltb. destruct (Rlt_dec a b); split; intros; try easy; lra.
Qed.

Lemma Rltb_false (a b : R) : Rltb a b = false <-> b <= a.
Proof.
  unfold Rltb. destruct (Rlt_dec a b); split; intros; try easy; lra.
Qed.

Lemma Reqb_true (a b : R) : Reqb a b = true <-> a = b.
Proof.
  unfold Reqb. destruct (Req_dec_T a b); split; intros; easy.
Qed.

Lemma Reqb_false (a b : R) : Reqb a b = false <-> a <> b.
Proof.
  unfold Reqb. destruct (Req_dec_T a b); split; intros; easy.
Qed.

Lemma np_ceil_bounds (r : R) : r <= IZR (np_ceil r) < r + 1.
Proof.
  unfold np_ceil. rewrite opp_IZR.
  destruct (base_Int_part (- r)) as [Hle Hgt]. lra.
Qed.

Lemma np_ceil_unique (r : R) (z : Z) : r <= IZR z < r + 1 -> np_ceil r = z.
Proof.
  intros [Hlo Hhi]. destruct (np_ceil_bounds r) as [Clo Chi].
  assert (H1 : (np_ceil r < z + 1)%Z).
  { apply lt_IZR. rewrite plus_IZR. lra. }
  assert (H2 : (z < np_ceil r + 1)%Z).
  { apply lt_IZR. rewrite plus_IZR. lra. }
  lia.
Qed.

Lemma np_ceil_IZR (z : Z) : np_ceil (IZR z) = z.
Proof. apply np_ceil_unique. lra. Qed.

Lemma np_ceil_le (r1 r2 : R) : r1 <= r2 -> (np_ceil r1 <= np_ceil r2)%Z.
Proof.
  intros Hle.
  destruct (np_ceil_bounds r1) as [_ H1], (np_ceil_bounds r2) as [H2 _].
  assert (H : (np_ceil r1 < np_ceil r2 + 1)%Z).
  { apply lt_IZR. rewrite plus_IZR. lra. }
  lia.
Qed.

Lemma np_ceil_pos (r : R) : 0 < r -> (1 <= np_ceil r)%Z.
Proof.
  intros Hr. destruct (np_ceil_bounds r) as [H _].
  assert (H0 : (0 < np_ceil r)%Z) by (apply lt_IZR; lra).
  lia.
Qed.

Lemma np_ceil_nonpos (r : R) : r <= 0 -> (np_ceil r <= 0)%Z.
Proof.
  intros Hr. rewrite <- (np_ceil_IZR 0). now apply np_ceil_le.
Qed.

(** The number of sentences to keep, for a fraction in (0,1]. *)
Lemma target_count_range (f : R) (n : nat) :
  (1 <= n)%nat -> 0 < f <= 1 ->
  (1 <= np_ceil (f * INR n) <= Z.of_nat n)%Z.
Proof.
  intros Hn [Hf0 Hf1].
  assert (Hpos : 0 < INR n) by (apply lt_0_INR; lia).
  split.
  - apply np_ceil_pos. now apply Rmult_lt_0_compat.
  - rewrite <- (np_ceil_IZR (Z.of_nat n)). apply np_ceil_le.
    rewrite <- INR_IZR_INZ. nra.
Qed.

(** ** Sorting *)

Section SortingFacts.

Context {A : Type} (lt : A -> A -> bool).

Lemma insert_perm (x : A) (l : list A) : Permutation (insert lt x l) (x :: l).
Proof.
  induction l as [|y l IH]; simpl.
  - apply Permutation_refl.
  - destruct (lt y x).
    + apply perm_trans with (y :: x :: l).
      * now apply perm_skip.
      * apply perm_swap.
    + apply Permutation_refl.
Qed.

Lemma sorted_perm (l : list A) : Permutation (sorted lt l) l.
Proof.
  induction l as [|x l IH]; simpl.
  - apply perm_nil.
  - apply perm_trans with (x :: sorted lt l).
    + apply insert_perm.
    + now apply perm_skip.
Qed.

Lemma sorted_reverse_perm (l : list A) : Permutation (sorted_reverse lt l) l.
Proof.
  unfold sorted_reverse.
  apply perm_trans with (sorted lt (rev l)).
  - apply Permutation_sym, Permutation_rev.
  - apply perm_trans with (rev l).
    + apply sorted_perm.
    + apply Permutation_sym, Permutation_rev.
Qed.

End SortingFacts.

Lemma insert_nat_sorted (x : nat) (l : list nat) :
  StronglySorted le l -> StronglySorted le (insert Nat.ltb x l).
Proof.
  induction 1 as [|y l Hs IH Hall]; simpl.
  - repeat constructor.
  - destruct (Nat.ltb_spec y x) as [Hlt|Hge].
    + constructor; [exact IH|].
      apply Forall_forall. intros z Hz.
      apply (Permutation_in _ (insert_perm Nat.ltb x l)) in Hz.
      destruct Hz as [<-|Hz]; [lia|].
      rewrite Forall_forall in Hall. now apply Hall.
    + constructor; [now constructor|].
      constructor; [exact Hge|].
      eapply Forall_impl; [|exact Hall]. simpl. intros; lia.
Qed.

Lemma sorted_nat_sorted (l : list nat) : StronglySorted le (sorted Nat.ltb l).
Proof.
  induction l as [|x l IH]; simpl.
  - constructor.
  - now apply insert_nat_sorted.
Qed.

Lemma sorted_le_nodup_lt (l : list nat) :
  StronglySorted le l -> NoDup l -> StronglySorted lt l.
Proof.
  induction 1 as [|y l Hs IH Hall]; intros Hnd.
  - constructor.
  - inversion Hnd as [|? ? Hnot Hnd']; subst.
    constructor; [now apply IH|].
    rewrite Forall_forall in *. intros z Hz.
    specialize (Hall z Hz).
    assert (y <> z) by (intros ->; contradiction).
    lia.
Qed.

(** ** Slices *)

Lemma slice_to_firstn {A : Type} (k : Z) (l : list A) :
  exists m, slice_to k l = firstn m l.
Proof.
  unfold slice_to. destruct (k <? 0)%Z; eexists; reflexivity.
Qed.

Lemma slice_to_length {A : Type} (k : Z) (l : list A) :
  (0 <= k <= Z.of_nat (List.length l))%Z ->
  List.length (slice_to k l) = Z.to_nat k.
Proof.
  intros Hk. unfold slice_to.
  destruct (Z.ltb_spec k 0) as [Hneg|_]; [lia|].
  rewrite length_firstn. lia.
Qed.

Lemma firstn_In {A : Type} (m : nat) (l : list A) (x : A) :
  In x (firstn m l) -> In x l.
Proof.
  intros Hx. rewrite <- (firstn_skipn m l). apply in_or_app. now left.
Qed.

Lemma firstn_NoDup {A : Type} (m : nat) (l : list A) :
  NoDup l -> NoDup (firstn m l).
Proof.
  intros Hnd. rewrite <- (firstn_skipn m l) in Hnd.
  now apply NoDup_app_remove_r in Hnd.
Qed.

Lemma contains_In (x : nat) (l : list nat) : contains x l = true <-> In x l.
Proof.
  unfold contains. rewrite existsb_exists. split.
  - intros [y [Hy Heq]]. apply Nat.eqb_eq in Heq. now subst.
  - intros Hx. exists x. split; [exact Hx|apply Nat.eqb_refl].
Qed.

(** ** The selection cell *)

Section Selection.

Variables (scores : list (nat * float64)) (n : nat).

(** The keys of the dictionary are the sentence indices, in order. *)
Hypothesis keys : map fst scores = seq 0 n.

Lemma sorted_keys_perm :
  Permutation (map fst (sentence_scores_sorted scores)) (seq 0 n).
Proof.
  rewrite <- keys. apply Permutation_map.
  unfold sentence_scores_sorted. apply sorted_reverse_perm.
Qed.

Lemma sentence_scores_sorted_length :
  List.length (sentence_scores_sorted scores) = n.
Proof.
  rewrite <- (length_map fst).
  rewrite (Permutation_length sorted_keys_perm). apply length_seq.
Qed.

Lemma top_scored_perm (f : R) :
  exists m, Permutation (top_scored scores f n)
              (firstn m (map fst (sentence_scores_sorted scores))).
Proof.
  unfold top_scored.
  destruct (slice_to_firstn (np_ceil (f * INR n))
              (sentence_scores_sorted scores)) as [m ->].
  exists m. rewrite firstn_map. apply sorted_perm.
Qed.

Lemma top_scored_NoDup (f : R) : NoDup (top_scored scores f n).
Proof.
  destruct (top_scored_perm f) as [m Hp].
  apply (Permutation_NoDup (Permutation_sym Hp)).
  apply firstn_NoDup.
  apply (Permutation_NoDup (Permutation_sym sorted_keys_perm)).
  apply seq_NoDup.
Qed.

Lemma top_scored_range (f : R) (i : nat) :
  In i (top_scored scores f n) -> (i < n)%nat.
Proof.
  destruct (top_scored_perm f) as [m Hp]. intros Hi.
  apply (Permutation_in _ Hp) in Hi. apply firstn_In in Hi.
  apply (Permutation_in _ sorted_keys_perm) in Hi.
  apply in_seq in Hi. lia.
Qed.

Lemma top_scored_ascending (f : R) : StronglySorted lt (top_scored scores f n).
Proof.
  apply sorted_le_nodup_lt.
  - unfold top_scored. apply sorted_nat_sorted.
  - apply top_scored_NoDup.
Qed.

Lemma top_scored_length (f : R) :
  (0 <= np_ceil (f * INR n) <= Z.of_nat n)%Z ->
  List.length (top_scored scores f n) = Z.to_nat (np_ceil (f * INR n)).
Proof.
  intros Hk. unfold top_scored.
  rewrite (Permutation_length (sorted_perm _ _)), length_map.
  apply slice_to_length. now rewrite sentence_scores_sorted_length.
Qed.

End Selection.

(** ** The first-sentence cell *)

Lemma with_first_sentence_In (l : list nat) : In 0%nat (with_first_sentence l).
Proof.
  unfold with_first_sentence.
  destruct (contains 0%nat l) eqn:Hc; simpl.
  - now apply contains_In.
  - now left.
Qed.

Lemma with_first_sentence_cases (l : list nat) :
  (In 0%nat l /\ with_first_sentence l = l)
  \/ (~ In 0%nat l /\ with_first_sentence l = 0%nat :: l).
Proof.
  unfold with_first_sentence.
  destruct (contains 0%nat l) eqn:Hc; simpl.
  - left. split; [now apply contains_In|reflexivity].
  - right. split; [|reflexivity].
    intros Hin. apply contains_In in Hin. congruence.
Qed.

Lemma with_first_sentence_ascending (l : list nat) :
  StronglySorted lt l -> StronglySorted lt (with_first_sentence l).
Proof.
  intros Hs.
  destruct (with_first_sentence_cases l) as [[_ ->]|[Hnot ->]]; [exact Hs|].
  constructor; [exact Hs|].
  apply Forall_forall. intros z Hz.
  assert (z <> 0%nat) by (intros ->; contradiction).
  lia.
Qed.

Lemma ascending_NoDup (l : list nat) : StronglySorted lt l -> NoDup l.
Proof.
  induction 1 as [|y l Hs IH Hall]; constructor; [|exact IH].
  intros Hin. rewrite Forall_forall in Hall.
  specialize (Hall y Hin). lia.
Qed.

Lemma with_first_sentence_range (l : list nat) (n i : nat) :
  (1 <= n)%nat -> (forall j, In j l -> (j < n)%nat) ->
  In i (with_first_sentence l) -> (i < n)%nat.
Proof.
  intros Hn Hl Hi.
  destruct (with_first_sentence_cases l) as [[_ Heq]|[_ Heq]];
    rewrite Heq in Hi.
  - now apply Hl.
  - destruct Hi as [<-|Hi]; [lia|now apply Hl].
Qed.

Lemma with_first_sentence_length_ge (l : list nat) :
  (List.length l <= List.length (with_first_sentence l))%nat.
Proof.
  destruct (with_first_sentence_cases l) as [[_ ->]|[_ ->]]; simpl; lia.
Qed.

Lemma with_first_sentence_length_le (l : list nat) :
  (List.length (with_first_sentence l) <= S (List.length l))%nat.
Proof.
  destruct (with_first_sentence_cases l) as [[_ ->]|[_ ->]]; simpl; lia.
Qed.


(** ** The scoring loop *)

Lemma keyword_sum_perm (sent : string) (l l' : list keyword_entry) :
  Permutation l l' -> keyword_sum l sent = keyword_sum l' sent.
Proof.
  unfold keyword_sum.
  induction 1 as [|x l l' Hp IH|x y l|l l' l'' Hp1 IH1 Hp2 IH2]; simpl.
  - reflexivity.
  - destruct (keyword_counts sent x); simpl; lra.
  - destruct (keyword_counts sent x), (keyword_counts sent y); simpl; lra.
  - lra.
Qed.

Lemma yake_keywords_sorted_perm (kws : list keyword_entry) :
  Permutation (yake_keywords_sorted kws) kws.
Proof. apply sorted_perm. Qed.

Lemma np_log_inverse (score : R) :
  0 < score -> np_log (1 / score) = Fin (ln (1 / score)).
Proof.
  intros Hs. unfold np_log.
  assert (H : 0 < 1 / score) by (apply Rdiv_lt_0_compat; lra).
  apply Rltb_true in H. now rewrite H.
Qed.

(** With importances that are not negative, the accumulator holds the sum
    of the specification, whatever its Python type. *)
Lemma sent_score_loop (sent : string) (kws : list keyword_entry) :
  (forall kw, In kw kws -> 0 <= snd kw) ->
  forall (acc : number) (r : R),
    to_float64 acc = Fin r ->
    to_float64 (fold_left (sent_score_step sent) kws acc)
    = Fin (r + keyword_sum kws sent).
Proof.
  induction kws as [|[keyword score] kws IH]; intros Hpos acc r Hacc.
  - unfold keyword_sum. simpl. rewrite Hacc. f_equal. lra.
  - assert (Hrest : forall kw, In kw kws -> 0 <= snd kw).
    { intros kw Hkw. apply Hpos. now right. }
    assert (Hscore : 0 <= score) by (apply (Hpos (keyword, score)); now left).
    simpl fold_left. unfold keyword_sum, keyword_counts. simpl.
    fold (keyword_counts sent).
    destruct (Req_dec_T score 0) as [Hz|Hnz].
    + assert (Hb : Reqb score 0 = true) by now apply Reqb_true.
      assert (Hl : Rltb 0 score = false) by (apply Rltb_false; lra).
      rewrite Hb, Hl. simpl. now apply IH.
    + assert (Hb : Reqb score 0 = false) by now apply Reqb_false.
      assert (Hl : Rltb 0 score = true) by (apply Rltb_true; lra).
      rewrite Hb, Hl. simpl.
      destruct (str_in keyword sent); simpl.
      * rewrite (IH Hrest _ (r + ln (1 / score))).
        -- unfold keyword_sum. f_equal. lra.
        -- unfold number_iadd. simpl. rewrite Hacc.
           rewrite np_log_inverse by lra. reflexivity.
      * now apply IH.
Qed.

Lemma number_div_int_finite (acc : number) (r : R) (n : nat) :
  to_float64 acc = Fin r -> (1 <= n)%nat ->
  number_div_int acc n = Ok (Fin (r / INR n)).
Proof.
  intros Hacc Hn.
  assert (Hz : (n =? 0)%nat = false) by (apply Nat.eqb_neq; lia).
  destruct acc as [r'|x]; simpl in *.
  - rewrite Hz. congruence.
  - subst x. simpl. now rewrite Hz.
Qed.

Lemma score_sentence_spec (kws : list keyword_entry) (sent : string) :
  (forall kw, In kw kws -> 0 <= snd kw) -> (1 <= sent_len sent)%nat ->
  score_sentence (yake_keywords_sorted kws) sent
  = Ok (Fin (score_spec kws sent)).
Proof.
  intros Hpos Hlen. unfold score_sentence, score_spec.
  fold (sent_len sent).
  rewrite (keyword_sum_perm sent _ _
             (Permutation_sym (yake_keywords_sorted_perm kws))).
  replace (keyword_sum (yake_keywords_sorted kws) sent)
    with (0 + keyword_sum (yake_keywords_sorted kws) sent) by lra.
  apply number_div_int_finite; [|exact Hlen].
  apply sent_score_loop; [|reflexivity].
  intros kw Hkw. apply Hpos.
  now apply (Permutation_in _ (yake_keywords_sorted_perm kws)).
Qed.

(** A numpy accumulator stays one. *)
Lemma sent_score_numpy (sent : string) (kws : list keyword_entry) :
  forall x, exists y,
    fold_left (sent_score_step sent) kws (NpFloat64 x) = NpFloat64 y.
Proof.
  induction kws as [|[keyword score] kws IH]; intros x; simpl.
  - now exists x.
  - destruct (Reqb score 0); [apply IH|].
    destruct (str_in keyword sent); [|apply IH].
    unfold number_iadd. apply IH.
Qed.

(** The accumulator is left alone when no keyword is added. *)
Lemma sent_score_untouched (sent : string) (kws : list keyword_entry) :
  (forall kw, In kw kws -> snd kw <> 0 -> str_in (fst kw) sent = false) ->
  forall acc, fold_left (sent_score_step sent) kws acc = acc.
Proof.
  induction kws as [|[keyword score] kws IH]; intros Hno acc; simpl.
  - reflexivity.
  - assert (Hrest : forall kw, In kw kws -> snd kw <> 0 ->
                               str_in (fst kw) sent = false).
    { intros kw Hkw. apply Hno. now right. }
    destruct (Req_dec_T score 0) as [Hz|Hnz].
    + apply Reqb_true in Hz. rewrite Hz. now apply IH.
    + rewrite (proj2 (Reqb_false score 0) Hnz).
      pose proof (Hno (keyword, score) (or_introl eq_refl) Hnz) as Hk.
      simpl in Hk. rewrite Hk. now apply IH.
Qed.

(** It is a numpy value as soon as one keyword is added. *)
Lemma sent_score_touched (sent : string) (kws : list keyword_entry) :
  (exists kw, In kw kws /\ snd kw <> 0 /\ str_in (fst kw) sent = true) ->
  forall acc, exists y,
    fold_left (sent_score_step sent) kws acc = NpFloat64 y.
Proof.
  induction kws as [|[keyword score] kws IH]; intros [kw [Hin [Hnz Hocc]]] acc.
  - destruct Hin.
  - simpl. destruct Hin as [<-|Hin]; simpl in *.
    + rewrite (proj2 (Reqb_false score 0) Hnz), Hocc.
      unfold number_iadd. apply sent_score_numpy.
    + apply IH. now exists kw.
Qed.

Lemma float64_div_zero_not_finite (x : float64) (r : R) :
  float64_div_int x 0 <> Fin r.
Proof.
  destruct x as [r'| | |]; simpl; try discriminate.
  destruct (Rltb 0 r'); [discriminate|].
  destruct (Rltb r' 0); discriminate.
Qed.

(** ** The loop over the sentences *)

Lemma sentence_scores_from_keys (kws : list keyword_entry)
  (sents : list string) :
  forall sid d, sentence_scores_from sid kws sents = Ok d ->
                map fst d = seq sid (List.length sents).
Proof.
  induction sents as [|sent rest IH]; intros sid d Hd; simpl in *.
  - now inversion Hd.
  - destruct (score_sentence kws sent) as [v|e]; simpl in Hd; [|discriminate].
    destruct (sentence_scores_from (S sid) kws rest) as [d'|e] eqn:Hrest;
      simpl in Hd; [|discriminate].
    inversion Hd; subst. simpl. f_equal. now apply IH.
Qed.

Lemma sentence_scores_from_nth (kws : list keyword_entry)
  (sents : list string) :
  forall sid d i sent,
    sentence_scores_from sid kws sents = Ok d ->
    nth_error sents i = Some sent ->
    exists v, score_sentence kws sent = Ok v
              /\ nth_error d i = Some ((sid + i)%nat, v).
Proof.
  induction sents as [|s rest IH]; intros sid d i sent Hd Hi.
  - destruct i; discriminate.
  - simpl in Hd.
    destruct (score_sentence kws s) as [v|e] eqn:Hs; simpl in Hd;
      [|discriminate].
    destruct (sentence_scores_from (S sid) kws rest) as [d'|e] eqn:Hrest;
      simpl in Hd; [|discriminate].
    inversion Hd; subst. destruct i as [|i]; simpl in Hi.
    + inversion Hi; subst. exists v. split; [exact Hs|].
      simpl. now rewrite Nat.add_0_r.
    + destruct (IH (S sid) d' i sent Hrest Hi) as [w [Hw Hnth]].
      exists w. split; [exact Hw|]. simpl.
      now replace (sid + S i)%nat with (S sid + i)%nat by lia.
Qed.

Lemma sentence_scores_from_total (kws : list keyword_entry)
  (sents : list string) :
  Forall (fun sent => (1 <= sent_len sent)%nat) sents ->
  forall sid, exists d, sentence_scores_from sid kws sents = Ok d.
Proof.
  induction 1 as [|sent rest Hlen Hall IH]; intros sid; simpl.
  - now exists [].
  - assert (Hv : exists v, score_sentence kws sent = Ok v).
    { unfold score_sentence, number_div_int.
      assert (Hz : (sent_len sent =? 0)%nat = false)
        by (apply Nat.eqb_neq; lia).
      destruct (sent_score kws sent); rewrite ?Hz; eexists; reflexivity. }
    destruct Hv as [v ->]. destruct (IH (S sid)) as [d ->].
    simpl. eexists; reflexivity.
Qed.

Lemma sentence_scores_from_raise (kws : list keyword_entry)
  (sents : list string) :
  forall sid sent e,
    In sent sents -> score_sentence kws sent = Raise e ->
    exists e', sentence_scores_from sid kws sents = Raise e'.
Proof.
  induction sents as [|s rest IH]; intros sid sent e Hin Hraise.
  - destruct Hin.
  - simpl. destruct Hin as [->|Hin].
    + rewrite Hraise. simpl. now exists e.
    + destruct (score_sentence kws s) as [v|e1]; simpl; [|now exists e1].
      destruct (IH (S sid) sent e Hin Hraise) as [e' ->]. simpl. now exists e'.
Qed.

(** ** The summary loop *)


(** ** Runs of the notebook *)

Section Runs.

Variable normalize : string -> string.

Lemma preprocess_length (sentences : list string) :
  List.length (preprocess normalize sentences) = List.length sentences.
Proof. apply length_map. Qed.

Lemma run_scored (sentences : list string) (kws : list keyword_entry)
  (f : R) (scores : list (nat * float64)) :
  sentence_scores (yake_keywords_sorted kws) (preprocess normalize sentences)
  = Ok scores ->
  nb_sentence_scores (run normalize sentences kws f) = Some scores
  /\ nb_top_sentences (run normalize sentences kws f)
     = Some (top_sentences scores f (List.length sentences))
  /\ (nb_summary (run normalize sentences kws f),
      nb_raised (run normalize sentences kws f))
     = print_summary sentences
         (top_sentences scores f (List.length sentences)).
Proof.
  intros Hs. unfold run. rewrite Hs.
  destruct (print_summary sentences _) as [out e]. now simpl.
Qed.

Lemma run_selected (sentences : list string) (kws : list keyword_entry)
  (f : R) (sel : list nat) :
  nb_top_sentences (run normalize sentences kws f) = Some sel ->
  exists scores,
    sentence_scores (yake_keywords_sorted kws) (preprocess normalize sentences)
    = Ok scores
    /\ map fst scores = seq 0 (List.length sentences)
    /\ sel = top_sentences scores f (List.length sentences).
Proof.
  intros Hsel.
  destruct (sentence_scores (yake_keywords_sorted kws)
              (preprocess normalize sentences)) as [scores|e] eqn:Hs.
  - exists scores. split; [reflexivity|]. split.
    + rewrite <- preprocess_length.
      now apply (sentence_scores_from_keys (yake_keywords_sorted kws)).
    + destruct (run_scored sentences kws f scores Hs) as [_ [Htop _]].
      congruence.
  - unfold run in Hsel. rewrite Hs in Hsel. discriminate.
Qed.

End Runs.

(** ** The four-sentence document *)

Lemma keyword_sum_none (kws : list keyword_entry) (sent : string) :
  (forall kw, In kw kws -> str_in (fst kw) sent = false) ->
  keyword_sum kws sent = 0.
Proof.
  intros Hno. unfold keyword_sum.
  induction kws as [|kw kws IH]; simpl; [reflexivity|].
  unfold keyword_counts at 1.
  rewrite (Hno kw (or_introl eq_refl)), andb_false_r.
  apply IH. intros k Hk. apply Hno. now right.
Qed.

Lemma scenario_keywords_positive (kw : keyword_entry) :
  In kw scenario_keywords -> 0 <= snd kw.
Proof.
  unfold scenario_keywords.
  intros [<-|[<-|[]]]; simpl; lra.
Qed.

Lemma scenario_unmatched (sent : string) :
  str_in "alpha" sent = false -> str_in "beta" sent = false ->
  score_spec scenario_keywords sent = 0.
Proof.
  intros Ha Hb. unfold score_spec.
  rewrite keyword_sum_none; [apply Rdiv_0_l|].
  unfold scenario_keywords.
  intros kw [<-|[<-|[]]]; simpl; assumption.
Qed.

Lemma scenario_matched (sent : string) :
  str_in "alpha" sent = true -> str_in "beta" sent = true ->
  (1 <= sent_len sent)%nat ->
  0 < score_spec scenario_keywords sent.
Proof.
  intros Ha Hb Hlen. unfold score_spec, keyword_sum, scenario_keywords.
  simpl filter. unfold keyword_counts. simpl fst. simpl snd.
  rewrite Ha, Hb.
  rewrite (proj2 (Rltb_true 0 0.01)) by lra.
  rewrite (proj2 (Rltb_true 0 0.5)) by lra.
  simpl.
  assert (H1 : 0 < ln (1 / 0.01)).
  { rewrite <- ln_1. apply ln_increasing; lra. }
  assert (H2 : 0 < ln (1 / 0.5)).
  { rewrite <- ln_1. apply ln_increasing; lra. }
  apply Rdiv_lt_0_compat; [lra|].
  apply lt_0_INR. exact Hlen.
Qed.

(** Sorting the scores of the document by descending score. *)
Lemma scenario_sorted (x : R) :
  0 < x ->
  sentence_scores_sorted
    [(0%nat, Fin 0); (1%nat, Fin 0); (2%nat, Fin x); (3%nat, Fin 0)]
  = [(2%nat, Fin x); (0%nat, Fin 0); (1%nat, Fin 0); (3%nat, Fin 0)].
Proof.
  intros Hx.
  assert (H00 : Rltb 0 0 = false) by (apply Rltb_false; lra).
  assert (H0x : Rltb 0 x = true) by (apply Rltb_true; lra).
  assert (Hx0 : Rltb x 0 = false) by (apply Rltb_false; lra).
  unfold sentence_scores_sorted, sorted_reverse, sorted. simpl.
  rewrite ?H00, ?H0x, ?Hx0. simpl.
  rewrite ?H00, ?H0x, ?Hx0. simpl.
  rewrite ?H00, ?H0x, ?Hx0. simpl.
  reflexivity.
Qed.

Section Scenario.

Variable normalize : string -> string.
Variables s0 s1 s2 s3 : string.

Hypothesis tokens :
  forall s, In s [s0; s1; s2; s3] -> (1 <= sent_len (normalize s))%nat.
Hypothesis alpha_in_s2 : str_in "alpha" (normalize s2) = true.
Hypothesis beta_in_s2 : str_in "beta" (normalize s2) = true.
Hypothesis others :
  forall s, In s [s0; s1; s3] ->
            str_in "alpha" (normalize s) = false
            /\ str_in "beta" (normalize s) = false.

Lemma scenario_scores :
  sentence_scores (yake_keywords_sorted scenario_keywords)
    (preprocess normalize [s0; s1; s2; s3])
  = Ok [(0%nat, Fin 0); (1%nat, Fin 0);
        (2%nat, Fin (score_spec scenario_keywords (normalize s2)));
        (3%nat, Fin 0)].
Proof.
  unfold sentence_scores, preprocess. cbn [map sentence_scores_from].
  rewrite !score_sentence_spec;
    try (apply scenario_keywords_positive);
    try (apply tokens; simpl; tauto).
  cbn [bind].
  destruct (others s0) as [A0 B0]; [simpl; tauto|].
  destruct (others s1) as [A1 B1]; [simpl; tauto|].
  destruct (others s3) as [A3 B3]; [simpl; tauto|].
  rewrite (scenario_unmatched _ A0 B0), (scenario_unmatched _ A1 B1),
    (scenario_unmatched _ A3 B3).
  reflexivity.
Qed.

Lemma scenario_score_positive :
  0 < score_spec scenario_keywords (normalize s2).
Proof.
  apply scenario_matched; [exact alpha_in_s2|exact beta_in_s2|].
  apply tokens. simpl. tauto.
Qed.

(** The selection, whenever one or two sentences are asked for. *)
Lemma scenario_top (f x : R) :
  0 < x ->
  (1 <= np_ceil (f * INR 4) <= 2)%Z ->
  top_sentences
    [(0%nat, Fin 0); (1%nat, Fin 0); (2%nat, Fin x); (3%nat, Fin 0)] f 4
  = [0%nat; 2%nat].
Proof.
  intros Hx Hk. unfold top_sentences, top_scored.
  rewrite (scenario_sorted x Hx).
  assert (Hc : np_ceil (f * INR 4) = 1%Z \/ np_ceil (f * INR 4) = 2%Z) by lia.
  destruct Hc as [-> | ->]; reflexivity.
Qed.

Lemma scenario_run (f : R) :
  (1 <= np_ceil (f * INR 4) <= 2)%Z ->
  run normalize [s0; s1; s2; s3] scenario_keywords f
  = {| nb_sentence_scores :=
         Some [(0%nat, Fin 0); (1%nat, Fin 0);
               (2%nat, Fin (score_spec scenario_keywords (normalize s2)));
               (3%nat, Fin 0)];
       nb_top_sentences := Some [0%nat; 2%nat];
       nb_summary := [strip s0; strip s2];
       nb_raised := None |}.
Proof.
  intros Hk. unfold run. rewrite scenario_scores.
  simpl List.length.
  rewrite (scenario_top f _ scenario_score_positive Hk).
  reflexivity.
Qed.

End Scenario.

Lemma quarter_of_four : np_ceil (0.25 * INR 4) = 1%Z.
Proof. apply np_ceil_unique. simpl. lra. Qed.

Lemma half_of_four : np_ceil (0.5 * INR 4) = 2%Z.
Proof. apply np_ceil_unique. simpl. lra. Qed.

Lemma example_run (f : R) :
  (1 <= np_ceil (f * INR 4) <= 2)%Z ->
  run (fun s => s) example_sentences scenario_keywords f
  = {| nb_sentence_scores :=
         Some [(0%nat, Fin 0); (1%nat, Fin 0);
               (2%nat, Fin (score_spec scenario_keywords
                              "alpha meets beta here"%string));
               (3%nat, Fin 0)];
       nb_top_sentences := Some [0%nat; 2%nat];
       nb_summary := ["the first sentence"%string;
                      "alpha meets beta here"%string];
       nb_raised := None |}.
Proof.
  intros Hk. unfold example_sentences.
  apply (scenario_run (fun s => s)); try exact Hk; try reflexivity.
  - intros s [<-|[<-|[<-|[<-|[]]]]]; vm_compute; lia.
  - intros s [<-|[<-|[<-|[]]]]; split; reflexivity.
Qed.

Lemma example_selection_quarter :
  nb_top_sentences (run (fun s => s) example_sentences scenario_keywords 0.25)
  = Some [0%nat; 2%nat].
Proof. rewrite example_run; [reflexivity|]. rewrite quarter_of_four. lia. Qed.

Lemma example_selection_half :
  nb_top_sentences (run (fun s => s) example_sentences scenario_keywords 0.5)
  = Some [0%nat; 2%nat].
Proof. rewrite example_run; [reflexivity|]. rewrite half_of_four. lia. Qed.

Lemma whole_of_four : np_ceil (1 * INR 4) = 4%Z.
Proof. apply np_ceil_unique. simpl. lra. Qed.

Lemma scenario_top_whole (f x : R) :
  0 < x ->
  np_ceil (f * INR 4) = 4%Z ->
  top_sentences
    [(0%nat, Fin 0); (1%nat, Fin 0); (2%nat, Fin x); (3%nat, Fin 0)] f 4
  = [0%nat; 1%nat; 2%nat; 3%nat].
Proof.
  intros Hx Hk. unfold top_sentences, top_scored.
  rewrite (scenario_sorted x Hx), Hk. reflexivity.
Qed.

Lemma example_scores :
  sentence_scores (yake_keywords_sorted scenario_keywords)
    (preprocess (fun s => s) example_sentences)
  = Ok [(0%nat, Fin 0); (1%nat, Fin 0);
        (2%nat, Fin (score_spec scenario_keywords
                       "alpha meets beta here"%string));
        (3%nat, Fin 0)].
Proof.
  unfold example_sentences.
  apply (scenario_scores (fun s => s)); try reflexivity.
  - intros s [<-|[<-|[<-|[<-|[]]]]]; vm_compute; lia.
  - intros s [<-|[<-|[<-|[]]]]; split; reflexivity.
Qed.

Lemma example_selection_whole :
  nb_top_sentences (run (fun s => s) example_sentences scenario_keywords 1)
  = Some [0%nat; 1%nat; 2%nat; 3%nat].
Proof.
  destruct (run_scored (fun s => s) example_sentences scenario_keywords 1
              _ example_scores) as [_ [Htop _]].
  rewrite Htop. f_equal.
  apply scenario_top_whole; [|exact whole_of_four].
  apply scenario_matched; try reflexivity. vm_compute; lia.
Qed.

(** * The claims *)

(** ** Scoring *)




(** ** Selection *)

Section SelectionClaims.

Variable normalize : string -> string.

(** C2. For a document of at least one sentence and a fraction in (0,1],
    the final selection is in strictly ascending order, free of duplicates,
    and contains index 0. *)
Theorem selection_ascending_with_first (sentences : list string)
  (kws : list keyword_entry) (f : R) (sel : list nat) :
  (1 <= List.length sentences)%nat -> 0 < f <= 1 ->
  nb_top_sentences (run normalize sentences kws f) = Some sel ->
  StronglySorted lt sel /\ NoDup sel /\ In 0%nat sel.
Proof.
  intros Hn Hf Hsel.
  destruct (run_selected normalize _ _ _ _ Hsel) as [scores [_ [Hkeys ->]]].
  unfold top_sentences.
  assert (Hs : StronglySorted lt
                 (with_first_sentence
                    (top_scored scores f (List.length sentences)))).
  { apply with_first_sentence_ascending. now apply top_scored_ascending. }
  split; [exact Hs|]. split.
  - now apply ascending_NoDup.
  - apply with_first_sentence_In.
Qed.


(** C7. For a document of at least one sentence and fractions
    [f1 <= f2] in (0,1], the selection for [f2] is at least as long as the
    selection for [f1]. *)
Theorem selection_length_monotone (sentences : list string)
  (kws : list keyword_entry) (f1 f2 : R) (sel1 sel2 : list nat) :
  (1 <= List.length sentences)%nat ->
  0 < f1 <= 1 -> 0 < f2 <= 1 -> f1 <= f2 ->
  nb_top_sentences (run normalize sentences kws f1) = Some sel1 ->
  nb_top_sentences (run normalize sentences kws f2) = Some sel2 ->
  (List.length sel1 <= List.length sel2)%nat.
Proof.
  intros Hn Hf1 Hf2 Hle Hsel1 Hsel2.
  destruct (run_selected normalize _ _ _ _ Hsel1) as [scores [Hs [Hkeys ->]]].
  destruct (run_selected normalize _ _ _ _ Hsel2) as [scores' [Hs' [_ ->]]].
  assert (scores' = scores) by congruence. subst scores'.
  set (n := List.length sentences) in *.
  pose proof (target_count_range f1 n Hn Hf1) as Hk1.
  pose proof (target_count_range f2 n Hn Hf2) as Hk2.
  assert (Hmono : (np_ceil (f1 * INR n) <= np_ceil (f2 * INR n))%Z).
  { apply np_ceil_le. apply Rmult_le_compat_r; [apply pos_INR|exact Hle]. }
  assert (Hl1 : List.length (top_scored scores f1 n)
                = Z.to_nat (np_ceil (f1 * INR n)))
    by (apply top_scored_length; [exact Hkeys|lia]).
  assert (Hl2 : List.length (top_scored scores f2 n)
                = Z.to_nat (np_ceil (f2 * INR n)))
    by (apply top_scored_length; [exact Hkeys|lia]).
  unfold top_sentences.
  destruct (Z.eq_dec (np_ceil (f1 * INR n)) (np_ceil (f2 * INR n))) as [Heq|Hne].
  - unfold top_scored. rewrite Heq. lia.
  - pose proof (with_first_sentence_length_le (top_scored scores f1 n)).
    pose proof (with_first_sentence_length_ge (top_scored scores f2 n)).
    lia.
Qed.

End SelectionClaims.

Lemma selection_ascending_with_first_witness :
  (1 <= List.length example_sentences)%nat
  /\ 0 < 0.25 <= 1
  /\ nb_top_sentences (run (fun s => s) example_sentences scenario_keywords 0.25)
     = Some [0%nat; 2%nat]
  /\ StronglySorted lt [0%nat; 2%nat] /\ NoDup [0%nat; 2%nat]
  /\ In 0%nat [0%nat; 2%nat].
Proof.
  split; [simpl; lia|]. split; [lra|].
  split; [exact example_selection_quarter|].
  apply (selection_ascending_with_first (fun s => s) example_sentences
           scenario_keywords 0.25 [0%nat; 2%nat]).
  - simpl; lia.
  - lra.
  - exact example_selection_quarter.
Defined.


Lemma selection_length_monotone_witness :
  (1 <= List.length example_sentences)%nat
  /\ 0 < 0.25 <= 1 /\ 0 < 1 <= 1 /\ 0.25 <= 1
  /\ nb_top_sentences (run (fun s => s) example_sentences scenario_keywords 0.25)
     = Some [0%nat; 2%nat]
  /\ nb_top_sentences (run (fun s => s) example_sentences scenario_keywords 1)
     = Some [0%nat; 1%nat; 2%nat; 3%nat]
  /\ (List.length [0%nat; 2%nat]
      <= List.length [0%nat; 1%nat; 2%nat; 3%nat])%nat.
Proof.
  split; [simpl; lia|]. split; [lra|]. split; [lra|]. split; [lra|].
  split; [exact example_selection_quarter|].
  split; [exact example_selection_whole|].
  apply (selection_length_monotone (fun s => s) example_sentences
           scenario_keywords 0.25 1 [0%nat; 2%nat]
           [0%nat; 1%nat; 2%nat; 3%nat]).
  - simpl; lia.
  - lra.
  - lra.
  - lra.
  - exact example_selection_quarter.
  - exact example_selection_whole.
Defined.

(** ** The scenario *)

(** C8. Four sentences and the keywords [("alpha", 0.01); ("beta", 0.5)]:
    when sentence 2 alone contains the two keywords, its score is positive,
    the other scores are 0, one sentence is asked for with
    [summary_size = 0.25], and the final selection is [[0; 2]]. *)
Theorem scenario_selection (normalize : string -> string)
  (s0 s1 s2 s3 : string) :
  (forall s, In s [s0; s1; s2; s3] -> (1 <= sent_len (normalize s))%nat) ->
  str_in "alpha" (normalize s2) = true ->
  str_in "beta" (normalize s2) = true ->
  (forall s, In s [s0; s1; s3] ->
             str_in "alpha" (normalize s) = false
             /\ str_in "beta" (normalize s) = false) ->
  let nb := run normalize [s0; s1; s2; s3] scenario_keywords 0.25 in
  (exists x, 0 < x
             /\ nb_sentence_scores nb
                = Some [(0%nat, Fin 0); (1%nat, Fin 0);
                        (2%nat, Fin x); (3%nat, Fin 0)])
  /\ np_ceil (0.25 * INR 4) = 1%Z
  /\ nb_top_sentences nb = Some [0%nat; 2%nat].
Proof.
  intros Htok Ha Hb Hothers nb. subst nb.
  rewrite (scenario_run normalize s0 s1 s2 s3 Htok Ha Hb Hothers 0.25)
    by (rewrite quarter_of_four; lia).
  simpl. split; [|split; [exact quarter_of_four|reflexivity]].
  exists (score_spec scenario_keywords (normalize s2)).
  split; [|reflexivity].
  now apply (scenario_score_positive normalize s0 s1 s2 s3).
Qed.

Lemma scenario_selection_witness :
  let nb := run (fun s => s) example_sentences scenario_keywords 0.25 in
  (exists x, 0 < x
             /\ nb_sentence_scores nb
                = Some [(0%nat, Fin 0); (1%nat, Fin 0);
                        (2%nat, Fin x); (3%nat, Fin 0)])
  /\ np_ceil (0.25 * INR 4) = 1%Z
  /\ nb_top_sentences nb = Some [0%nat; 2%nat].
Proof.
  unfold example_sentences.
  refine (scenario_selection (fun s => s)
            "the first sentence" "a second one"
            "alpha meets beta here" "the last sentence" _ _ _ _).
  - intros s [<-|[<-|[<-|[<-|[]]]]]; vm_compute; lia.
  - reflexivity.
  - reflexivity.
  - intros s [<-|[<-|[<-|[]]]]; split; reflexivity.
Defined.

(** ** Inputs the specification rejects *)


Lemma slice_to_nil {A : Type} (k : Z) : slice_to k (@nil A) = [].
Proof.
  destruct (slice_to_firstn k (@nil A)) as [m ->]. apply firstn_nil.
Qed.

Lemma top_sentences_no_scores (f : R) (n : nat) :
  top_sentences [] f n = [0%nat].
Proof.
  unfold top_sentences, top_scored.
  replace (sentence_scores_sorted []) with (@nil (nat * float64))
    by reflexivity.
  rewrite slice_to_nil. reflexivity.
Qed.

Lemma run_empty_document (normalize : string -> string)
  (kws : list keyword_entry) (f : R) :
  run normalize [] kws f
  = {| nb_sentence_scores := Some [];
       nb_top_sentences := Some [0%nat];
       nb_summary := [];
       nb_raised := Some IndexError |}.
Proof.
  unfold run, preprocess, sentence_scores.
  cbn [map sentence_scores_from].
  rewrite top_sentences_no_scores. reflexivity.
Qed.

(** C3, as the notebook has it. With no sentence at all, the scoring and
    the selection cells run to their end, with an empty score dictionary and
    the selection [[0]]; the run fails only in the summary loop, at
    [sentences[0]], with an IndexError. *)
Theorem empty_document_fails_late (normalize : string -> string)
  (kws : list keyword_entry) (f : R) :
  let nb := run normalize [] kws f in
  nb_sentence_scores nb = Some []
  /\ nb_top_sentences nb = Some [0%nat]
  /\ nb_summary nb = []
  /\ nb_raised nb = Some IndexError.
Proof.
  intros nb. subst nb. rewrite run_empty_document. simpl. tauto.
Qed.

Lemma empty_document_counterexample :
  ~ fails_before_scoring (run (fun s => s) [] [] 0.25)
  /\ nb_sentence_scores (run (fun s => s) [] [] 0.25) = Some []
  /\ nb_top_sentences (run (fun s => s) [] [] 0.25) = Some [0%nat]
  /\ nb_raised (run (fun s => s) [] [] 0.25) = Some IndexError.
Proof.
  rewrite run_empty_document. simpl.
  split; [|tauto].
  intros [_ [Hscores _]]. discriminate.
Qed.






(** ** Division by the number of tokens *)

Lemma split_from_run (cur s : string) :
  is_empty cur = false -> split_from cur s <> [].
Proof.
  revert cur. induction s as [|c s IH]; intros cur Hcur; simpl.
  - rewrite Hcur. discriminate.
  - destruct (isspace c).
    + rewrite Hcur. discriminate.
    + apply IH. destruct cur; reflexivity.
Qed.

Lemma split_nil_all_space (s : string) :
  split s = [] <-> all_space s = true.
Proof.
  unfold split. induction s as [|c s IH]; simpl.
  - tauto.
  - destruct (isspace c); simpl.
    + exact IH.
    + split; [|discriminate].
      intros H. now apply split_from_run in H.
Qed.

Lemma sent_len_zero (s : string) :
  sent_len s = 0%nat <-> all_space s = true.
Proof.
  unfold sent_len. rewrite <- split_nil_all_space.
  destruct (split s); simpl; split; intros; try reflexivity; discriminate.
Qed.

Lemma prefix_all_space (k s : string) :
  prefix k s = true -> all_space s = true -> all_space k = true.
Proof.
  revert s. induction k as [|c k IH]; intros s Hp Hs; [reflexivity|].
  destruct s as [|d s]; simpl in Hp; [discriminate|].
  destruct (ascii_dec c d) as [->|]; [|discriminate].
  simpl in *. apply andb_true_iff in Hs. destruct Hs as [Hd Hs].
  rewrite Hd. simpl. now apply (IH s).
Qed.

Lemma str_in_all_space (k s : string) :
  str_in k s = true -> all_space s = true -> all_space k = true.
Proof.
  induction s as [|c s IH]; cbn [str_in]; intros Hin Hs.
  - rewrite orb_false_r in Hin. now apply (prefix_all_space k "").
  - apply orb_true_iff in Hin. destruct Hin as [Hp|Hin].
    + now apply (prefix_all_space k (String c s)).
    + apply IH; [exact Hin|].
      simpl in Hs. apply andb_true_iff in Hs. tauto.
Qed.

(** A keyword with a token does not occur in a sentence without one. *)
Lemma str_in_no_token (k s : string) :
  (1 <= sent_len k)%nat -> sent_len s = 0%nat -> str_in k s = false.
Proof.
  intros Hk Hs. destruct (str_in k s) eqn:Hin; [|reflexivity].
  apply sent_len_zero in Hs.
  pose proof (str_in_all_space k s Hin Hs) as Hall.
  apply sent_len_zero in Hall. lia.
Qed.

(** C6, as the notebook has it. Scoring never raises when every processed
    sentence has a token. A sentence without a token raises
    ZeroDivisionError, and with it the scoring cell, when no keyword of
    importance other than 0 occurs in it, which is so whenever each of these
    keywords has a token itself; when one does occur, [sent_score] is a
    [numpy.float64] by then and the division returns [inf], [-inf] or [nan]
    instead of raising. *)
Theorem scoring_division (kws : list keyword_entry) :
  (forall processed,
      Forall (fun sent => (1 <= sent_len sent)%nat) processed ->
      exists scores, sentence_scores kws processed = Ok scores)
  /\ (forall sent,
        sent_len sent = 0%nat ->
        (forall kw, In kw kws -> snd kw <> 0 -> str_in (fst kw) sent = false) ->
        score_sentence kws sent = Raise ZeroDivisionError
        /\ forall processed,
             In sent processed ->
             exists e, sentence_scores kws processed = Raise e)
  /\ (forall sent,
        sent_len sent = 0%nat ->
        (forall kw, In kw kws -> snd kw <> 0 -> (1 <= sent_len (fst kw))%nat) ->
        score_sentence kws sent = Raise ZeroDivisionError)
  /\ (forall sent,
        sent_len sent = 0%nat ->
        (exists kw, In kw kws /\ snd kw <> 0 /\ str_in (fst kw) sent = true) ->
        exists x, score_sentence kws sent = Ok x /\ forall r, x <> Fin r).
Proof.
  assert (Hraise : forall sent,
             sent_len sent = 0%nat ->
             (forall kw, In kw kws -> snd kw <> 0 ->
                         str_in (fst kw) sent = false) ->
             score_sentence kws sent = Raise ZeroDivisionError).
  { intros sent Hlen Hno. unfold score_sentence, sent_score.
    rewrite (sent_score_untouched sent kws Hno), Hlen. reflexivity. }
  split; [|split; [|split]].
  - intros processed Htok.
    apply (sentence_scores_from_total kws processed Htok 0%nat).
  - intros sent Hlen Hno.
    split; [now apply Hraise|].
    intros processed Hin.
    apply (sentence_scores_from_raise kws processed 0%nat sent
             ZeroDivisionError Hin).
    now apply Hraise.
  - intros sent Hlen Htok. apply Hraise; [exact Hlen|].
    intros kw Hkw Hnz. apply str_in_no_token; [|exact Hlen].
    now apply Htok.
  - intros sent Hlen Hsome.
    destruct (sent_score_touched sent kws Hsome (PyFloat 0)) as [y Hy].
    exists (float64_div_int y 0). split.
    + unfold score_sentence, sent_score. rewrite Hy, Hlen. reflexivity.
    + intros r. apply float64_div_zero_not_finite.
Qed.

Lemma scoring_division_witness :
  score_sentence scenario_keywords "" = Raise ZeroDivisionError
  /\ exists e, sentence_scores scenario_keywords ["a b"%string; ""%string]
               = Raise e.
Proof.
  destruct (proj1 (proj2 (scoring_division scenario_keywords)) ""%string)
    as [Hraise Hcell].
  - reflexivity.
  - unfold scenario_keywords.
    intros kw [<-|[<-|[]]] _; reflexivity.
  - split; [exact Hraise|]. apply Hcell. simpl. tauto.
Defined.

Lemma empty_sentence_counterexample :
  sent_len "" = 0%nat
  /\ score_sentence (yake_keywords_sorted [(""%string, 0.5)]) "" = Ok PInf
  /\ sentence_scores (yake_keywords_sorted [(""%string, 0.5)]) [""%string]
     = Ok [(0%nat, PInf)].
Proof.
  assert (Hs : score_sentence (yake_keywords_sorted [(""%string, 0.5)]) ""
               = Ok PInf).
  { unfold yake_keywords_sorted, sorted, score_sentence, sent_score. simpl.
    rewrite (proj2 (Reqb_false 0.5 0)) by lra.
    unfold number_iadd. rewrite np_log_inverse by lra. simpl.
    assert (H : 0 < 0 + ln (1 / 0.5)).
    { rewrite Rplus_0_l, <- ln_1. apply ln_increasing; lra. }
    now rewrite (proj2 (Rltb_true _ _) H). }
  split; [reflexivity|]. split; [exact Hs|].
  unfold sentence_scores. cbn [sentence_scores_from]. rewrite Hs. reflexivity.
Qed.

(** ** Occurrences *)






(** ** Stability of the sort *)

Section Stability.

Context {A : Type} (lt : A -> A -> bool).

Lemma before_cons (x a b : A) (l : list A) :
  before l a b -> before (x :: l) a b.
Proof.
  intros [l1 [l2 [l3 ->]]]. now exists (x :: l1), l2, l3.
Qed.

Lemma before_head (a b : A) (l : list A) : In b l -> before (a :: l) a b.
Proof.
  intros Hb. destruct (in_split _ _ Hb) as [l2 [l3 ->]].
  now exists [], l2, l3.
Qed.

Lemma before_inv (x a b : A) (l : list A) :
  before (x :: l) a b -> (a = x /\ In b l) \/ before l a b.
Proof.
  intros [l1 [l2 [l3 Heq]]]. destruct l1 as [|z l1]; simpl in Heq.
  - inversion Heq; subst. left. split; [reflexivity|].
    apply in_or_app. right. now left.
  - inversion Heq; subst. right. now exists l1, l2, l3.
Qed.

Lemma before_rev (a b : A) (l : list A) :
  before l a b -> before (rev l) b a.
Proof.
  intros [l1 [l2 [l3 ->]]].
  exists (rev l3), (rev l2), (rev l1).
  rewrite rev_app_distr. simpl. rewrite rev_app_distr. simpl.
  repeat rewrite <- app_assoc. reflexivity.
Qed.

(** Insertion keeps the order of the entries that were there. *)
Lemma insert_before_kept (x a b : A) (l : list A) :
  before l a b -> before (insert lt x l) a b.
Proof.
  induction l as [|y l IH]; intros Hab; simpl.
  - destruct Hab as [l1 [l2 [l3 Heq]]]. destruct l1; discriminate.
  - destruct (lt y x).
    + destruct (before_inv _ _ _ _ Hab) as [[-> Hb]|Hab'].
      * apply before_head.
        apply (Permutation_in _ (Permutation_sym (insert_perm lt x l))).
        now right.
      * apply before_cons. now apply IH.
    + now apply before_cons.
Qed.

(** The inserted entry stops in front of every entry that is not less. *)
Lemma insert_before_new (x y : A) (l : list A) :
  In y l -> lt y x = false -> before (insert lt x l) x y.
Proof.
  induction l as [|z l IH]; intros Hy Hlt; simpl.
  - destruct Hy.
  - destruct (lt z x) eqn:Hz.
    + destruct Hy as [->|Hy]; [congruence|].
      apply before_cons. now apply IH.
    + now apply before_head.
Qed.

Lemma sorted_stable (a b : A) (l : list A) :
  before l a b -> lt b a = false -> before (sorted lt l) a b.
Proof.
  induction l as [|x l IH]; intros Hab Hlt.
  - destruct Hab as [l1 [l2 [l3 Heq]]]. destruct l1; discriminate.
  - simpl. destruct (before_inv _ _ _ _ Hab) as [[-> Hb]|Hab'].
    + apply insert_before_new; [|exact Hlt].
      now apply (Permutation_in _ (Permutation_sym (sorted_perm lt l))).
    + apply insert_before_kept. now apply IH.
Qed.

Lemma sorted_reverse_stable (a b : A) (l : list A) :
  before l a b -> lt a b = false -> before (sorted_reverse lt l) a b.
Proof.
  intros Hab Hlt. unfold sorted_reverse.
  apply before_rev, sorted_stable; [|exact Hlt].
  now apply before_rev.
Qed.

End Stability.

Lemma seq_ascending (len start : nat) : StronglySorted lt (seq start len).
Proof.
  revert start. induction len as [|len IH]; intros start; simpl.
  - constructor.
  - constructor; [apply IH|].
    apply Forall_forall. intros j Hj. apply in_seq in Hj. lia.
Qed.

Lemma ascending_keys_before {V : Type} (l : list (nat * V)) (a b : nat * V) :
  StronglySorted lt (map fst l) ->
  In a l -> In b l -> (fst a < fst b)%nat -> before l a b.
Proof.
  induction l as [|c l IH]; intros Hs Ha Hb Hlt; [destruct Ha|].
  simpl in Hs. inversion Hs as [|? ? Hs' Hall]; subst.
  rewrite Forall_forall in Hall.
  destruct Ha as [->|Ha].
  - destruct Hb as [->|Hb]; [lia|]. now apply before_head.
  - destruct Hb as [->|Hb].
    + specialize (Hall (fst a) (in_map fst _ _ Ha)). lia.
    + apply before_cons. now apply IH.
Qed.

Lemma float64_ltb_irrefl (x : float64) : float64_ltb x x = false.
Proof.
  destruct x as [r| | |]; simpl; try reflexivity.
  apply Rltb_false. lra.
Qed.

(** In [sentence_scores_sorted] a sentence stands before every later
    sentence whose score is not strictly greater. *)
Lemma sentence_scores_sorted_stable (scores : list (nat * float64))
  (n i j : nat) (x y : float64) :
  map fst scores = seq 0 n ->
  In (i, x) scores -> In (j, y) scores -> (i < j)%nat ->
  float64_ltb x y = false ->
  before (sentence_scores_sorted scores) (i, x) (j, y).
Proof.
  intros Hkeys Hi Hj Hlt Hxy. unfold sentence_scores_sorted.
  apply sorted_reverse_stable; [|exact Hxy].
  apply ascending_keys_before; try assumption.
  rewrite Hkeys. apply seq_ascending.
Qed.

(** ** Determinism *)




(** * Further properties of the notebook *)

(** ** Substrings *)

Lemma prefix_app (k s : string) :
  prefix k s = true <-> exists b, s = (k ++ b)%string.
Proof.
  revert s. induction k as [|c k IH]; intros s.
  - split; [intros _; now exists s|]. intros _. now destruct s.
  - destruct s as [|d s]; simpl.
    + split; [discriminate|]. intros [b Hb]. discriminate.
    + destruct (ascii_dec c d) as [->|Hne].
      * rewrite IH. split; intros [b Hb]; exists b.
        -- now rewrite Hb.
        -- now inversion Hb.
      * split; [discriminate|]. intros [b Hb]. inversion Hb. congruence.
Qed.

(** X1. [keyword in sent] holds exactly when the sentence is some text,
    the keyword, and some text: the keyword need not stand at the
    boundaries of tokens. *)
Theorem str_in_substring (keyword sent : string) :
  str_in keyword sent = true
  <-> exists a b, sent = (a ++ keyword ++ b)%string.
Proof.
  induction sent as [|c sent IH]; cbn [str_in].
  - rewrite orb_false_r, prefix_app. split.
    + intros [b Hb]. now exists EmptyString, b.
    + intros [a [b Hab]]. destruct a; [now exists b|discriminate].
  - rewrite orb_true_iff, prefix_app, IH. split.
    + intros [[b Hb]|[a [b Hab]]].
      * now exists EmptyString, b.
      * exists (String c a), b. simpl. now rewrite Hab.
    + intros [a [b Hab]]. destruct a as [|d a]; simpl in Hab.
      * left. now exists b.
      * right. inversion Hab. now exists a, b.
Qed.

(** ** Preprocessing *)

Lemma sub_spaces_start (s : string) :
  starts_with_space (sub_spaces s) = starts_with_space s.
Proof.
  induction s as [|c s IH]; simpl; [reflexivity|].
  destruct (isspace c) eqn:Hc.
  - destruct (starts_with_space s) eqn:Hs.
    + now rewrite IH.
    + reflexivity.
  - simpl. exact Hc.
Qed.

Lemma sub_spaces_single_spaced (s : string) :
  single_spaced (sub_spaces s) = true.
Proof.
  induction s as [|c s IH]; simpl; [reflexivity|].
  destruct (isspace c) eqn:Hc.
  - destruct (starts_with_space s) eqn:Hs; [exact IH|].
    simpl. now rewrite sub_spaces_start, Hs, IH.
  - simpl. now rewrite Hc, IH.
Qed.

Lemma sub_spaces_split_from (s cur : string) :
  split_from cur (sub_spaces s) = split_from cur s.
Proof.
  revert cur. induction s as [|c s IH]; intros cur; simpl; [reflexivity|].
  destruct (isspace c) eqn:Hc.
  - destruct (starts_with_space s) eqn:Hs.
    + rewrite IH. destruct s as [|d s]; [discriminate|].
      simpl in Hs. simpl. rewrite Hs. reflexivity.
    + simpl. now rewrite !IH.
  - simpl. now rewrite Hc, IH.
Qed.

Lemma single_spaced_blank (s : string) :
  single_spaced s = true -> all_space s = true ->
  s = EmptyString \/ s = " "%string.
Proof.
  destruct s as [|c s]; [now left|]. simpl. intros Hs Ha. right.
  apply andb_true_iff in Ha. destruct Ha as [Hc Ha]. rewrite Hc in Hs.
  apply andb_true_iff in Hs. destruct Hs as [Hs _].
  apply andb_true_iff in Hs. destruct Hs as [Heq Hstart].
  apply Ascii.eqb_eq in Heq. subst c.
  destruct s as [|d s]; [reflexivity|].
  simpl in *. apply andb_true_iff in Ha. destruct Ha as [Hd _].
  rewrite Hd in Hstart. discriminate.
Qed.

Section Preprocessing.

Variable nlp : string -> list string.
Variable lower : string -> string.

(** X2. In a processed sentence whitespace occurs only as single spaces:
    no tab, no line break, no two spaces in a row, whatever the tokens that
    spaCy returns. *)
Theorem preprocess_single_spaced (sentences : list string) (sent : string) :
  In sent (preprocess (preprocess_sentence nlp lower) sentences) ->
  single_spaced sent = true.
Proof.
  unfold preprocess. intros Hin. apply in_map_iff in Hin.
  destruct Hin as [s [<- _]]. apply sub_spaces_single_spaced.
Qed.

(** X3. A processed sentence has no token, so that its score divides by
    zero, exactly when it is the empty string or one space. *)
Theorem preprocess_blank (sentences : list string) (sent : string) :
  In sent (preprocess (preprocess_sentence nlp lower) sentences) ->
  (sent_len sent = 0%nat <-> sent = EmptyString \/ sent = " "%string).
Proof.
  intros Hin. split.
  - intros Hlen. apply single_spaced_blank.
    + now apply (preprocess_single_spaced sentences).
    + now apply sent_len_zero.
  - intros [->| ->]; reflexivity.
Qed.

End Preprocessing.

Lemma preprocess_single_spaced_witness :
  single_spaced "a b" = true.
Proof.
  apply (preprocess_single_spaced (fun s => [s]) (fun s => s)
           ["a   b"%string]).
  simpl. now left.
Defined.

Lemma preprocess_blank_witness :
  sent_len " " = 0%nat <-> " "%string = EmptyString \/ " "%string = " "%string.
Proof.
  apply (preprocess_blank (fun s => [s]) (fun s => s) ["  "%string]).
  simpl. now left.
Defined.

Lemma split_from_app_space (a b cur : string) :
  split_from cur (a ++ " " ++ b)
  = (split_from cur a ++ split b)%list.
Proof.
  revert cur. induction a as [|c a IH]; intros cur.
  - simpl. destruct (is_empty cur); reflexivity.
  - change ((String c a ++ " " ++ b)%string)
      with (String c (a ++ " " ++ b)%string).
    cbn [split_from]. destruct (isspace c).
    + rewrite IH. destruct (is_empty cur); reflexivity.
    + apply IH.
Qed.

Lemma split_join (l : list string) :
  split (join " " l) = List.concat (map split l).
Proof.
  induction l as [|x l IH]; [reflexivity|].
  destruct l as [|y l].
  - simpl. now rewrite app_nil_r.
  - change (join " " (x :: y :: l))
      with ((x ++ " " ++ join " " (y :: l))%string).
    unfold split at 1. rewrite split_from_app_space.
    rewrite IH. reflexivity.
Qed.

(** X4. The number of tokens a sentence's score is divided by is the
    number of whitespace-separated pieces in the lowered texts of its spaCy
    tokens: joining with spaces and collapsing whitespace neither adds nor
    loses a piece. *)
Theorem preprocess_token_count (nlp : string -> list string)
  (lower : string -> string) (s : string) :
  split (preprocess_sentence nlp lower s)
  = List.concat (map (fun t => split (lower t)) (nlp (sub_newlines s)))
  /\ sent_len (preprocess_sentence nlp lower s)
     = list_sum (map (fun t => sent_len (lower t)) (nlp (sub_newlines s))).
Proof.
  assert (Hs : split (preprocess_sentence nlp lower s)
               = List.concat (map (fun t => split (lower t))
                           (nlp (sub_newlines s)))).
  { unfold preprocess_sentence, split at 1.
    rewrite sub_spaces_split_from. fold (split (join " " (map lower
      (nlp (sub_newlines s))))).
    now rewrite split_join, map_map. }
  split; [exact Hs|].
  unfold sent_len at 1. rewrite Hs. clear Hs.
  induction (nlp (sub_newlines s)) as [|t l IH]; simpl; [reflexivity|].
  rewrite length_app, IH. reflexivity.
Qed.

(** ** Order of a sorted list *)

Section SortedOrder.

Context {A : Type} (lt : A -> A -> bool) (P : A -> Prop).

(** [lt] is a strict total order on the entries that satisfy [P]. *)
Hypothesis lt_asym : forall a b, lt a b = true -> lt b a = false.
Hypothesis le_trans :
  forall a b c, P a -> P b -> P c ->
                lt b a = false -> lt c b = false -> lt c a = false.

Lemma insert_ordered (x : A) (l : list A) :
  P x -> Forall P l ->
  StronglySorted (fun a b => lt b a = false) l ->
  StronglySorted (fun a b => lt b a = false) (insert lt x l).
Proof.
  intros Hx Hl Hs. induction Hs as [|y l Hs IH Hall]; simpl.
  - repeat constructor.
  - inversion Hl as [|? ? Hy Hl']; subst.
    destruct (lt y x) eqn:Hyx.
    + constructor; [now apply IH|].
      apply (Permutation_Forall (Permutation_sym (insert_perm lt x l))).
      constructor; [|exact Hall]. now apply lt_asym.
    + constructor; [now constructor|].
      constructor; [exact Hyx|].
      rewrite Forall_forall in *. intros z Hz.
      apply (le_trans x y z); auto.
Qed.

Lemma sorted_ordered (l : list A) :
  Forall P l -> StronglySorted (fun a b => lt b a = false) (sorted lt l).
Proof.
  induction 1 as [|x l Hx Hl IH]; simpl.
  - constructor.
  - apply insert_ordered; [exact Hx| |exact IH].
    now apply (Permutation_Forall (Permutation_sym (sorted_perm lt l))).
Qed.

Lemma ordered_before (l : list A) (a b : A) :
  StronglySorted (fun a b => lt b a = false) l ->
  before l a b -> lt b a = false.
Proof.
  induction 1 as [|y l Hs IH Hall]; intros Hab.
  - destruct Hab as [l1 [l2 [l3 Heq]]]. destruct l1; discriminate.
  - destruct (before_inv _ _ _ _ Hab) as [[-> Hb]|Hab'].
    + exact (proj1 (Forall_forall _ _) Hall b Hb).
    + now apply IH.
Qed.

(** After [sorted], an entry is not greater than the entries behind it. *)
Lemma sorted_ascending (l : list A) (a b : A) :
  Forall P l -> before (sorted lt l) a b -> lt b a = false.
Proof.
  intros Hl Hab. apply (ordered_before (sorted lt l)); [|exact Hab].
  now apply sorted_ordered.
Qed.

(** After [sorted] with [reverse=True], it is not less than them. *)
Lemma sorted_reverse_descending (l : list A) (a b : A) :
  Forall P l -> before (sorted_reverse lt l) a b -> lt a b = false.
Proof.
  intros Hl Hab. unfold sorted_reverse in Hab.
  apply before_rev in Hab. rewrite rev_involutive in Hab.
  apply (sorted_ascending (rev l)); [|exact Hab].
  now apply (Permutation_Forall (Permutation_rev l)).
Qed.

End SortedOrder.

Lemma float64_ltb_asym (x y : float64) :
  float64_ltb x y = true -> float64_ltb y x = false.
Proof.
  destruct x as [r| | |], y as [r'| | |]; simpl; try easy.
  rewrite Rltb_true, Rltb_false. lra.
Qed.

Lemma float64_ge_trans (x y z : float64) :
  x <> NaN -> y <> NaN -> z <> NaN ->
  float64_ltb y x = false -> float64_ltb z y = false ->
  float64_ltb z x = false.
Proof.
  destruct x as [r| | |], y as [r'| | |], z as [r''| | |]; simpl;
    try easy.
  rewrite !Rltb_false. lra.
Qed.

Lemma StronglySorted_weaken {A : Type} (R R' : A -> A -> Prop) (l : list A) :
  (forall a b, R a b -> R' a b) ->
  StronglySorted R l -> StronglySorted R' l.
Proof.
  intros Himp. induction 1 as [|y l Hs IH Hall]; constructor; [exact IH|].
  eapply Forall_impl; [|exact Hall]. exact (Himp y).
Qed.

(** ** The sorted keywords *)

(** X5. [yake_keywords_sorted] holds the same keywords as [yake_keywords],
    in ascending order of importance, and keywords of equal importance in
    the order the extractor returned them. *)
Theorem yake_keywords_sorted_ascending (kws : list keyword_entry) :
  Permutation (yake_keywords_sorted kws) kws
  /\ StronglySorted (fun a b => snd a <= snd b) (yake_keywords_sorted kws)
  /\ (forall a b, before kws a b -> snd a <= snd b ->
                  before (yake_keywords_sorted kws) a b).
Proof.
  split; [apply yake_keywords_sorted_perm|]. split.
  - unfold yake_keywords_sorted.
    eapply StronglySorted_weaken;
      [|apply (sorted_ordered _ (fun _ => True))].
    + intros a b Hab. simpl in Hab. now apply Rltb_false in Hab.
    + intros a b Hab. apply Rltb_true in Hab. apply Rltb_false. lra.
    + intros a b c _ _ _. rewrite !Rltb_false. lra.
    + apply Forall_forall. trivial.
  - intros a b Hab Hle. unfold yake_keywords_sorted.
    apply sorted_stable; [exact Hab|]. apply Rltb_false. exact Hle.
Qed.

(** ** The best sentences *)

Lemma before_app {A : Type} (l1 l2 : list A) (a b : A) :
  In a l1 -> In b l2 -> before (l1 ++ l2) a b.
Proof.
  intros Ha Hb.
  destruct (in_split _ _ Ha) as [u1 [u2 ->]].
  destruct (in_split _ _ Hb) as [v1 [v2 ->]].
  exists u1, (u2 ++ v1)%list, v2.
  rewrite <- !app_assoc. reflexivity.
Qed.

Lemma before_firstn {A : Type} (l : list A) (a b : A) (m : nat) :
  NoDup l -> before l a b -> In b (firstn m l) -> In a (firstn m l).
Proof.
  intros Hnd [l1 [l2 [l3 ->]]] Hb.
  destruct (Nat.le_gt_cases m (List.length (l1 ++ a :: l2))) as [Hle|Hgt].
  - exfalso.
    replace (l1 ++ a :: l2 ++ b :: l3)%list
      with ((l1 ++ a :: l2) ++ b :: l3)%list in Hb, Hnd
      by (rewrite <- app_assoc; reflexivity).
    rewrite firstn_app in Hb.
    replace (m - List.length (l1 ++ a :: l2))%nat with 0%nat in Hb by lia.
    simpl in Hb. rewrite app_nil_r in Hb. apply firstn_In in Hb.
    apply NoDup_remove_2 in Hnd. apply Hnd.
    apply in_or_app. now left.
  - rewrite firstn_app. apply in_or_app.
    destruct (Nat.le_gt_cases m (List.length l1)) as [Hle1|Hgt1].
    + rewrite length_app in Hgt. simpl in Hgt. lia.
    + right. destruct (m - List.length l1)%nat as [|p] eqn:Hp; [lia|].
      simpl. now left.
Qed.

Lemma keys_functional {V : Type} (l : list (nat * V)) (i : nat) (x x' : V) :
  NoDup (map fst l) -> In (i, x) l -> In (i, x') l -> x = x'.
Proof.
  induction l as [|[j v] l IH]; intros Hnd Hx Hx'; [destruct Hx|].
  simpl in Hnd. inversion Hnd as [|? ? Hnot Hnd']; subst.
  destruct Hx as [Hx|Hx], Hx' as [Hx'|Hx'].
  - congruence.
  - inversion Hx; subst. exfalso. apply Hnot.
    now apply (in_map fst _ (i, x')).
  - inversion Hx'; subst. exfalso. apply Hnot.
    now apply (in_map fst _ (i, x)).
  - now apply IH.
Qed.

Section BestSentences.

Variables (scores : list (nat * float64)) (n : nat).
Hypothesis keys : map fst scores = seq 0 n.
Hypothesis no_nan : Forall (fun entry => snd entry <> NaN) scores.

Lemma sorted_scores_NoDup : NoDup (sentence_scores_sorted scores).
Proof.
  apply (NoDup_map_inv fst).
  apply (Permutation_NoDup (Permutation_sym (sorted_keys_perm scores n keys))).
  apply seq_NoDup.
Qed.

Lemma sorted_scores_In (e : nat * float64) :
  In e (sentence_scores_sorted scores) <-> In e scores.
Proof.
  unfold sentence_scores_sorted. split; intros He.
  - eapply Permutation_in; [apply sorted_reverse_perm|exact He].
  - eapply Permutation_in; [apply Permutation_sym, sorted_reverse_perm|].
    exact He.
Qed.

Lemma sorted_scores_descending (a b : nat * float64) :
  before (sentence_scores_sorted scores) a b ->
  float64_ltb (snd a) (snd b) = false.
Proof.
  unfold sentence_scores_sorted. intros Hab.
  apply (sorted_reverse_descending
           (fun u v : nat * float64 => float64_ltb (snd u) (snd v))
           (fun entry => snd entry <> NaN)) with (l := scores).
  - intros u v. apply float64_ltb_asym.
  - intros u v w. apply float64_ge_trans.
  - exact no_nan.
  - exact Hab.
Qed.

(** The entries of the slice that [top_scored] keeps. *)
Lemma top_scored_slice (f : R) :
  exists m, forall i,
    In i (top_scored scores f n)
    <-> exists x, In (i, x) (firstn m (sentence_scores_sorted scores)).
Proof.
  unfold top_scored.
  destruct (slice_to_firstn (np_ceil (f * INR n))
              (sentence_scores_sorted scores)) as [m ->].
  exists m. intros i. split.
  - intros Hi. apply (Permutation_in _ (sorted_perm _ _)) in Hi.
    apply in_map_iff in Hi. destruct Hi as [[j x] [Hj Hin]].
    simpl in Hj. subst j. now exists x.
  - intros [x Hx].
    apply (Permutation_in _ (Permutation_sym (sorted_perm _ _))).
    now apply (in_map fst _ (i, x)).
Qed.

Lemma top_scored_entry (m i : nat) (x x' : float64) :
  In (i, x) scores ->
  In (i, x') (firstn m (sentence_scores_sorted scores)) ->
  In (i, x) (firstn m (sentence_scores_sorted scores)).
Proof.
  intros Hx Hx'.
  assert (x' = x); [|now subst].
  apply (keys_functional scores i); [rewrite keys; apply seq_NoDup| |exact Hx].
  apply sorted_scores_In. now apply firstn_In in Hx'.
Qed.

Lemma top_scored_best_entries (f : R) (i j : nat) (x y : float64) :
  In (i, x) scores -> In (j, y) scores ->
  In i (top_scored scores f n) -> ~ In j (top_scored scores f n) ->
  float64_ltb x y = false.
Proof.
  intros Hx Hy Hi Hj.
  destruct (top_scored_slice f) as [m Hm].
  apply Hm in Hi. destruct Hi as [x' Hx'].
  pose proof (top_scored_entry m i x x' Hx Hx') as Hfirst.
  assert (Hrest : In (j, y) (skipn m (sentence_scores_sorted scores))).
  { apply sorted_scores_In in Hy.
    rewrite <- (firstn_skipn m (sentence_scores_sorted scores)) in Hy.
    apply in_app_or in Hy. destruct Hy as [Hy|Hy]; [|exact Hy].
    exfalso. apply Hj, Hm. now exists y. }
  apply (sorted_scores_descending (i, x) (j, y)).
  rewrite <- (firstn_skipn m (sentence_scores_sorted scores)).
  now apply before_app.
Qed.

Lemma top_scored_prefers_earlier (f : R) (i j : nat) (x y : float64) :
  In (i, x) scores -> In (j, y) scores -> (i < j)%nat ->
  float64_ltb x y = false ->
  In j (top_scored scores f n) -> In i (top_scored scores f n).
Proof.
  intros Hx Hy Hlt Hxy Hj.
  destruct (top_scored_slice f) as [m Hm].
  apply Hm in Hj. destruct Hj as [y' Hy'].
  pose proof (top_scored_entry m j y y' Hy Hy') as Hfirst.
  apply Hm. exists x.
  apply (before_firstn _ (i, x) (j, y)); [apply sorted_scores_NoDup| |exact Hfirst].
  now apply (sentence_scores_sorted_stable scores n).
Qed.

End BestSentences.

Lemma example_score_list_scored :
  sentence_scores (yake_keywords_sorted scenario_keywords)
    (preprocess (fun s => s) example_sentences)
  = Ok example_score_list.
Proof. exact example_scores. Qed.

Lemma example_score_list_no_nan :
  Forall (fun entry => snd entry <> NaN) example_score_list.
Proof. unfold example_score_list. repeat constructor; discriminate. Qed.

Lemma example_score_positive :
  0 < score_spec scenario_keywords "alpha meets beta here".
Proof. apply scenario_matched; try reflexivity. vm_compute; lia. Qed.

Lemma example_top_scored_quarter :
  top_scored example_score_list 0.25
    (List.length (preprocess (fun s => s) example_sentences))
  = [2%nat].
Proof.
  unfold top_scored, example_score_list.
  rewrite (scenario_sorted _ example_score_positive).
  change (List.length (preprocess (fun s => s) example_sentences)) with 4%nat.
  rewrite quarter_of_four. reflexivity.
Qed.

Lemma example_top_scored_whole :
  top_scored example_score_list 1
    (List.length (preprocess (fun s => s) example_sentences))
  = [0%nat; 1%nat; 2%nat; 3%nat].
Proof.
  unfold top_scored, example_score_list.
  rewrite (scenario_sorted _ example_score_positive).
  change (List.length (preprocess (fun s => s) example_sentences)) with 4%nat.
  rewrite whole_of_four. reflexivity.
Qed.

Section BestSentenceClaims.

Variables (kws : list keyword_entry) (processed : list string).
Variable scores : list (nat * float64).

(** X6. When no score is [nan], [sentence_scores_sorted] holds the items of
    [sentence_scores], each once, and no item has a smaller score than an
    item behind it. *)
Theorem sentence_scores_sorted_descending :
  sentence_scores kws processed = Ok scores ->
  Forall (fun entry => snd entry <> NaN) scores ->
  Permutation (sentence_scores_sorted scores) scores
  /\ NoDup (sentence_scores_sorted scores)
  /\ (forall a b, before (sentence_scores_sorted scores) a b ->
                  float64_ltb (snd a) (snd b) = false).
Proof.
  intros Hs Hnan.
  pose proof (sentence_scores_from_keys kws processed 0%nat scores Hs) as Hkeys.
  split; [apply sorted_reverse_perm|]. split.
  - now apply (sorted_scores_NoDup scores (List.length processed)).
  - intros a b. now apply sorted_scores_descending.
Qed.

(** X7. When no score is [nan], the selection cell keeps the best
    sentences: a sentence it keeps does not score less than a sentence it
    leaves out, whatever the fraction. *)
Theorem top_scored_best (f : R) (i j : nat) (x y : float64) :
  sentence_scores kws processed = Ok scores ->
  Forall (fun entry => snd entry <> NaN) scores ->
  In (i, x) scores -> In (j, y) scores ->
  In i (top_scored scores f (List.length processed)) ->
  ~ In j (top_scored scores f (List.length processed)) ->
  float64_ltb x y = false.
Proof.
  intros Hs Hnan.
  pose proof (sentence_scores_from_keys kws processed 0%nat scores Hs) as Hkeys.
  now apply top_scored_best_entries.
Qed.

(** X8. When no score is [nan], the selection cell prefers the earlier
    sentence: if it keeps sentence [j], it keeps every sentence before [j]
    that does not score less; among equal scores the lower indices win. *)
Theorem top_scored_earlier_first (f : R) (i j : nat) (x y : float64) :
  sentence_scores kws processed = Ok scores ->
  Forall (fun entry => snd entry <> NaN) scores ->
  In (i, x) scores -> In (j, y) scores -> (i < j)%nat ->
  float64_ltb x y = false ->
  In j (top_scored scores f (List.length processed)) ->
  In i (top_scored scores f (List.length processed)).
Proof.
  intros Hs Hnan.
  pose proof (sentence_scores_from_keys kws processed 0%nat scores Hs) as Hkeys.
  now apply top_scored_prefers_earlier.
Qed.

End BestSentenceClaims.

Lemma sentence_scores_sorted_descending_witness :
  Permutation (sentence_scores_sorted example_score_list) example_score_list
  /\ NoDup (sentence_scores_sorted example_score_list)
  /\ (forall a b, before (sentence_scores_sorted example_score_list) a b ->
                  float64_ltb (snd a) (snd b) = false).
Proof.
  apply (sentence_scores_sorted_descending
           (yake_keywords_sorted scenario_keywords)
           (preprocess (fun s => s) example_sentences) example_score_list).
  - exact example_score_list_scored.
  - exact example_score_list_no_nan.
Defined.

Lemma top_scored_best_witness :
  float64_ltb
    (Fin (score_spec scenario_keywords "alpha meets beta here")) (Fin 0)
  = false.
Proof.
  apply (top_scored_best (yake_keywords_sorted scenario_keywords)
           (preprocess (fun s => s) example_sentences) example_score_list
           0.25 2%nat 0%nat).
  - exact example_score_list_scored.
  - exact example_score_list_no_nan.
  - unfold example_score_list. simpl. tauto.
  - unfold example_score_list. simpl. tauto.
  - rewrite example_top_scored_quarter. simpl. tauto.
  - rewrite example_top_scored_quarter. simpl. intros [H|[]]. discriminate.
Defined.

Lemma example_top_scored_three :
  top_scored example_score_list 0.75
    (List.length (preprocess (fun s => s) example_sentences))
  = [0%nat; 1%nat; 2%nat].
Proof.
  unfold top_scored, example_score_list.
  rewrite (scenario_sorted _ example_score_positive).
  change (List.length (preprocess (fun s => s) example_sentences)) with 4%nat.
  rewrite (np_ceil_unique (0.75 * INR 4) 3) by (simpl; lra). reflexivity.
Qed.

Lemma top_scored_earlier_first_witness :
  In 0%nat
    (top_scored example_score_list 0.75
       (List.length (preprocess (fun s => s) example_sentences))).
Proof.
  apply (top_scored_earlier_first (yake_keywords_sorted scenario_keywords)
           (preprocess (fun s => s) example_sentences) example_score_list
           0.75 0%nat 1%nat (Fin 0) (Fin 0)).
  - exact example_score_list_scored.
  - exact example_score_list_no_nan.
  - unfold example_score_list. simpl. tauto.
  - unfold example_score_list. simpl. tauto.
  - lia.
  - apply float64_ltb_irrefl.
  - rewrite example_top_scored_three. simpl. tauto.
Defined.

(** ** Lists that the sort leaves alone *)






(** An ascending list is determined by its members. *)
Lemma ascending_unique (l1 l2 : list nat) :
  StronglySorted lt l1 -> StronglySorted lt l2 ->
  (forall x, In x l1 <-> In x l2) -> l1 = l2.
Proof.
  intros H1. revert l2.
  induction H1 as [|a l1 Hs1 IH Hall1]; intros l2 H2 Hsame.
  - destruct l2 as [|b l2]; [reflexivity|].
    destruct (proj2 (Hsame b) (or_introl eq_refl)).
  - destruct H2 as [|b l2 Hs2 Hall2].
    + destruct (proj1 (Hsame a) (or_introl eq_refl)).
    + rewrite Forall_forall in Hall1, Hall2.
      assert (Hab : a = b).
      { destruct (proj1 (Hsame a) (or_introl eq_refl)) as [Hba|Ha];
          [now symmetry|].
        destruct (proj2 (Hsame b) (or_introl eq_refl)) as [Hab|Hb];
          [exact Hab|].
        specialize (Hall1 b Hb). specialize (Hall2 a Ha). lia. }
      subst b. f_equal. apply IH; [exact Hs2|].
      intros x. split; intros Hx.
      * destruct (proj1 (Hsame x) (or_intror Hx)) as [Hax|Hx2]; [|exact Hx2].
        specialize (Hall1 x Hx). lia.
      * destruct (proj2 (Hsame x) (or_intror Hx)) as [Hax|Hx1]; [|exact Hx1].
        specialize (Hall2 x Hx). lia.
Qed.

(** ** The selection, whatever the fraction *)

Section AnyFraction.

Variables (scores : list (nat * float64)) (n : nat).
Hypothesis keys : map fst scores = seq 0 n.

Lemma top_sentences_ascending (f : R) :
  StronglySorted lt (top_sentences scores f n).
Proof.
  apply with_first_sentence_ascending. now apply top_scored_ascending.
Qed.

Lemma top_sentences_range (f : R) (i : nat) :
  (1 <= n)%nat -> In i (top_sentences scores f n) -> (i < n)%nat.
Proof.
  intros Hn. apply with_first_sentence_range; [exact Hn|].
  intros j. now apply top_scored_range.
Qed.

Lemma top_scored_length_any (f : R) :
  List.length (top_scored scores f n)
  = if (np_ceil (f * INR n) <? 0)%Z
    then Z.to_nat (Z.of_nat n + np_ceil (f * INR n))
    else Nat.min (Z.to_nat (np_ceil (f * INR n))) n.
Proof.
  unfold top_scored.
  rewrite (Permutation_length (sorted_perm _ _)), length_map.
  unfold slice_to. rewrite (sentence_scores_sorted_length scores n keys).
  destruct (np_ceil (f * INR n) <? 0)%Z eqn:Hk; rewrite length_firstn,
    (sentence_scores_sorted_length scores n keys).
  - apply Z.ltb_lt in Hk. lia.
  - reflexivity.
Qed.

Lemma top_scored_whole (f : R) :
  (Z.of_nat n <= np_ceil (f * INR n))%Z ->
  top_scored scores f n = seq 0 n.
Proof.
  intros Hk. apply ascending_unique.
  - now apply top_scored_ascending.
  - apply seq_ascending.
  - intros i.
    assert (Hlen : List.length (top_scored scores f n) = n).
    { rewrite top_scored_length_any.
      destruct (Z.ltb_spec (np_ceil (f * INR n)) 0); lia. }
    split; intros Hi.
    + apply in_seq. pose proof (top_scored_range scores n keys f i Hi). lia.
    + assert (Hincl : incl (seq 0 n) (top_scored scores f n)).
      { apply NoDup_length_incl.
        - now apply top_scored_NoDup.
        - rewrite Hlen, length_seq. lia.
        - intros j Hj. apply in_seq.
          pose proof (top_scored_range scores n keys f j Hj). lia. }
      now apply Hincl.
Qed.

End AnyFraction.

(** ** Exceptions of a run *)

Lemma keyword_touch_dichotomy (kws : list keyword_entry) (sent : string) :
  (forall kw, In kw kws -> snd kw <> 0 -> str_in (fst kw) sent = false)
  \/ (exists kw, In kw kws /\ snd kw <> 0 /\ str_in (fst kw) sent = true).
Proof.
  induction kws as [|[keyword score] kws IH].
  - left. intros kw [].
  - destruct IH as [Hno|[kw [Hin Hkw]]].
    + destruct (Req_dec_T score 0) as [Hz|Hnz].
      * left. intros kw [<-|Hkw]; [simpl; contradiction|now apply Hno].
      * destruct (str_in keyword sent) eqn:Hocc.
        -- right. exists (keyword, score). simpl. tauto.
        -- left. intros kw [<-|Hkw]; [simpl; trivial|now apply Hno].
    + right. exists kw. split; [now right|exact Hkw].
Qed.

Lemma score_sentence_raise (kws : list keyword_entry) (sent : string)
  (e : exn) :
  score_sentence kws sent = Raise e
  <-> e = ZeroDivisionError
      /\ sent_len sent = 0%nat
      /\ (forall kw, In kw kws -> snd kw <> 0 ->
                     str_in (fst kw) sent = false).
Proof.
  split.
  - intros Hraise.
    destruct (keyword_touch_dichotomy kws sent) as [Hno|Hsome].
    + unfold score_sentence, sent_score in Hraise.
      rewrite (sent_score_untouched sent kws Hno) in Hraise.
      simpl in Hraise.
      destruct (sent_len sent =? 0)%nat eqn:Hlen; [|discriminate].
      apply Nat.eqb_eq in Hlen. inversion Hraise. tauto.
    + destruct (sent_score_touched sent kws Hsome (PyFloat 0)) as [y Hy].
      unfold score_sentence, sent_score in Hraise.
      rewrite Hy in Hraise. discriminate.
  - intros [-> [Hlen Hno]]. unfold score_sentence, sent_score.
    rewrite (sent_score_untouched sent kws Hno), Hlen. reflexivity.
Qed.

Lemma sentence_scores_from_raise_inv (kws : list keyword_entry)
  (sents : list string) :
  forall sid e,
    sentence_scores_from sid kws sents = Raise e ->
    exists sent, In sent sents /\ score_sentence kws sent = Raise e.
Proof.
  induction sents as [|s rest IH]; intros sid e Hraise; simpl in Hraise.
  - discriminate.
  - destruct (score_sentence kws s) as [v|e1] eqn:Hs; simpl in Hraise.
    + destruct (sentence_scores_from (S sid) kws rest) as [d|e2] eqn:Hrest;
        simpl in Hraise; [discriminate|].
      inversion Hraise; subst.
      destruct (IH (S sid) e Hrest) as [sent [Hin Hsent]].
      exists sent. split; [now right|exact Hsent].
    + inversion Hraise; subst. exists s. split; [now left|exact Hs].
Qed.

(** X9. The scoring cell raises nothing but ZeroDivisionError, and raises
    it exactly when some processed sentence has no token and contains no
    keyword of importance other than 0. *)
Theorem sentence_scores_raises (kws : list keyword_entry)
  (processed : list string) (e : exn) :
  sentence_scores kws processed = Raise e
  <-> e = ZeroDivisionError
      /\ exists sent,
           In sent processed
           /\ sent_len sent = 0%nat
           /\ (forall kw, In kw kws -> snd kw <> 0 ->
                          str_in (fst kw) sent = false).
Proof.
  split.
  - intros Hraise.
    destruct (sentence_scores_from_raise_inv kws processed 0%nat e Hraise)
      as [sent [Hin Hsent]].
    apply score_sentence_raise in Hsent. destruct Hsent as [-> Hsent].
    split; [reflexivity|]. now exists sent.
  - intros [-> [sent [Hin [Hlen Hno]]]].
    assert (Hsent : score_sentence kws sent = Raise ZeroDivisionError)
      by (apply score_sentence_raise; tauto).
    destruct (sentence_scores_from_raise kws processed 0%nat sent _ Hin Hsent)
      as [e' He'].
    unfold sentence_scores. rewrite He'. f_equal.
    destruct (sentence_scores_from_raise_inv kws processed 0%nat e' He')
      as [sent' [_ Hsent']].
    apply score_sentence_raise in Hsent'. tauto.
Qed.

(** ** The summary of a run *)

Lemma print_summary_lines (sentences : list string) (top : list nat) :
  (forall i, In i top -> (i < List.length sentences)%nat) ->
  print_summary sentences top
  = (map (fun i => strip (nth i sentences EmptyString)) top, None).
Proof.
  induction top as [|idx rest IH]; intros Hr; simpl; [reflexivity|].
  destruct (nth_error sentences idx) as [s|] eqn:Hs.
  - rewrite IH by (intros i Hi; apply Hr; now right).
    now rewrite (nth_error_nth _ _ _ Hs).
  - apply nth_error_None in Hs.
    specialize (Hr idx (or_introl eq_refl)). lia.
Qed.

Lemma map_nth_all {A B : Type} (g : A -> B) (d : A) (l : list A) :
  map (fun i => g (nth i l d)) (seq 0 (List.length l)) = map g l.
Proof.
  induction l as [|x l IH]; simpl; [reflexivity|].
  f_equal. rewrite <- seq_shift, map_map. exact IH.
Qed.


Section RunOutcome.

Variable normalize : string -> string.
Variables (sentences : list string) (kws : list keyword_entry) (f : R).

(** X10. On a document of at least one sentence the summary loop never
    raises, whatever the fraction: once a selection is bound the run ends
    without an exception, and the summary is the selected original
    sentences, stripped, in the order of the selection. *)
Theorem summary_of_selection (sel : list nat) :
  (1 <= List.length sentences)%nat ->
  nb_top_sentences (run normalize sentences kws f) = Some sel ->
  nb_raised (run normalize sentences kws f) = None
  /\ nb_summary (run normalize sentences kws f)
     = map (fun i => strip (nth i sentences EmptyString)) sel.
Proof.
  intros Hn Hsel.
  destruct (run_selected normalize _ _ _ _ Hsel) as [scores [Hs [Hkeys ->]]].
  destruct (run_scored normalize sentences kws f scores Hs) as [_ [_ Hout]].
  rewrite print_summary_lines in Hout.
  - now inversion Hout.
  - intros i. now apply top_sentences_range.
Qed.

(** X11. A run ends with an IndexError exactly when the document has no
    sentence. *)
Theorem index_error_iff_empty :
  nb_raised (run normalize sentences kws f) = Some IndexError
  <-> sentences = [].
Proof.
  split.
  - intros Hraised. destruct sentences as [|s rest] eqn:Hsent; [reflexivity|].
    exfalso. rewrite <- Hsent in *.
    assert (Hn : (1 <= List.length sentences)%nat) by (rewrite Hsent; simpl; lia).
    destruct (sentence_scores (yake_keywords_sorted kws)
                (preprocess normalize sentences)) as [scores|e] eqn:Hs.
    + destruct (run_scored normalize sentences kws f scores Hs)
        as [_ [Htop _]].
      destruct (summary_of_selection _ Hn Htop) as [Hnone _]. congruence.
    + pose proof (proj1 (sentence_scores_raises _ _ _) Hs) as [-> _].
      unfold run in Hraised. rewrite Hs in Hraised. discriminate.
  - intros ->. now rewrite run_empty_document.
Qed.

End RunOutcome.

Lemma summary_of_selection_witness :
  nb_raised (run (fun s => s) example_sentences scenario_keywords 0.25) = None
  /\ nb_summary (run (fun s => s) example_sentences scenario_keywords 0.25)
     = ["the first sentence"%string; "alpha meets beta here"%string].
Proof.
  apply (summary_of_selection (fun s => s) example_sentences
           scenario_keywords 0.25 [0%nat; 2%nat]).
  - simpl; lia.
  - exact example_selection_quarter.
Defined.

(** ** Whole documents and single sentences *)

Lemma with_first_sentence_present (l : list nat) :
  In 0%nat l -> with_first_sentence l = l.
Proof.
  intros Hin.
  destruct (with_first_sentence_cases l) as [[_ Heq]|[Hnot _]];
    [exact Heq|contradiction].
Qed.

Section WholeDocument.

Variable normalize : string -> string.
Variables (sentences : list string) (kws : list keyword_entry) (f : R).

(** X12. With a fraction of 1 or more, on a document of at least one
    sentence, every sentence is selected: the selection is [0 .. n-1] and
    the summary is the whole document, each sentence stripped. *)
Theorem whole_document_selected (sel : list nat) :
  (1 <= List.length sentences)%nat -> 1 <= f ->
  nb_top_sentences (run normalize sentences kws f) = Some sel ->
  sel = seq 0 (List.length sentences)
  /\ nb_summary (run normalize sentences kws f) = map strip sentences.
Proof.
  intros Hn Hf Hsel.
  destruct (summary_of_selection normalize sentences kws f sel Hn Hsel)
    as [_ Hsum].
  destruct (run_selected normalize _ _ _ _ Hsel) as [scores [Hs [Hkeys Heq]]].
  assert (Hall : sel = seq 0 (List.length sentences)).
  { rewrite Heq. unfold top_sentences.
    rewrite (top_scored_whole scores _ Hkeys).
    - apply with_first_sentence_present. apply in_seq. lia.
    - rewrite <- (np_ceil_IZR (Z.of_nat (List.length sentences))) at 1.
      apply np_ceil_le. rewrite <- INR_IZR_INZ.
      assert (0 <= INR (List.length sentences)) by apply pos_INR. nra. }
  split; [exact Hall|].
  rewrite Hsum, Hall. apply map_nth_all.
Qed.

End WholeDocument.

Lemma whole_document_selected_witness :
  [0%nat; 1%nat; 2%nat; 3%nat] = seq 0 (List.length example_sentences)
  /\ nb_summary (run (fun s => s) example_sentences scenario_keywords 1)
     = map strip example_sentences.
Proof.
  apply (whole_document_selected (fun s => s) example_sentences
           scenario_keywords 1 [0%nat; 1%nat; 2%nat; 3%nat]).
  - simpl; lia.
  - lra.
  - exact example_selection_whole.
Defined.

(** X13. A document of one sentence is its own summary, whatever the
    keywords and the fraction: once a selection is bound it is [[0]] and
    the summary is the sentence, stripped. *)
Theorem single_sentence_selected (normalize : string -> string) (s : string)
  (kws : list keyword_entry) (f : R) (sel : list nat) :
  nb_top_sentences (run normalize [s] kws f) = Some sel ->
  sel = [0%nat]
  /\ nb_summary (run normalize [s] kws f) = [strip s]
  /\ nb_raised (run normalize [s] kws f) = None.
Proof.
  intros Hsel.
  assert (Hn : (1 <= List.length [s])%nat) by (simpl; lia).
  destruct (summary_of_selection normalize [s] kws f sel Hn Hsel)
    as [Hnone Hsum].
  destruct (run_selected normalize _ _ _ _ Hsel) as [scores [Hs [Hkeys Heq]]].
  assert (Hone : sel = [0%nat]).
  { rewrite Heq. apply ascending_unique.
    - now apply top_sentences_ascending.
    - repeat constructor.
    - intros i. split.
      + intros Hi. apply (top_sentences_range scores _ Hkeys f i Hn) in Hi.
        simpl in Hi. left. lia.
      + intros [<-|[]]. apply with_first_sentence_In. }
  split; [exact Hone|]. split; [|exact Hnone].
  rewrite Hsum, Hone. reflexivity.
Qed.

Lemma single_example_scores :
  sentence_scores (yake_keywords_sorted [])
    (preprocess (fun s => s) [" only one. "%string])
  = Ok [(0%nat, Fin 0)].
Proof.
  unfold sentence_scores, preprocess. cbn [map sentence_scores_from].
  rewrite score_sentence_spec.
  - cbn [bind]. unfold score_spec.
    rewrite keyword_sum_none by (intros kw []). now rewrite Rdiv_0_l.
  - intros kw [].
  - vm_compute; lia.
Qed.

Lemma single_sentence_selected_witness :
  top_sentences [(0%nat, Fin 0)] 0.25 1 = [0%nat]
  /\ nb_summary (run (fun s => s) [" only one. "%string] [] 0.25)
     = ["only one."%string]
  /\ nb_raised (run (fun s => s) [" only one. "%string] [] 0.25) = None.
Proof.
  apply (single_sentence_selected (fun s => s) " only one. " [] 0.25).
  now destruct (run_scored (fun s => s) [" only one. "%string] [] 0.25
                  _ single_example_scores) as [_ [Htop _]].
Defined.

(** ** The size of the selection *)

Section SelectionSize.

Variables (kws : list keyword_entry) (processed : list string).
Variable scores : list (nat * float64).



End SelectionSize.



(** ** Documents in which no keyword counts *)






(** ** The effect of one keyword *)








(** ** Stripped sentences *)

Lemma lstrip_start (s : string) : starts_with_space (lstrip s) = false.
Proof.
  induction s as [|c s IH]; simpl; [reflexivity|].
  destruct (isspace c) eqn:Hc; [exact IH|]. simpl. exact Hc.
Qed.

Lemma lstrip_fixed (s : string) :
  starts_with_space s = false -> lstrip s = s.
Proof.
  destruct s as [|c s]; simpl; [reflexivity|]. now intros ->.
Qed.

Lemma rstrip_start (s : string) :
  starts_with_space s = false -> starts_with_space (rstrip s) = false.
Proof.
  destruct s as [|c s]; simpl; [reflexivity|]. intros Hc.
  rewrite Hc, andb_false_r. simpl. exact Hc.
Qed.

Lemma rstrip_idempotent (s : string) : rstrip (rstrip s) = rstrip s.
Proof.
  induction s as [|c s IH]; simpl; [reflexivity|].
  destruct (is_empty (rstrip s) && isspace c) eqn:Hcond; [reflexivity|].
  simpl. now rewrite IH, Hcond.
Qed.

Lemma strip_idempotent (s : string) : strip (strip s) = strip s.
Proof.
  unfold strip.
  rewrite (lstrip_fixed (rstrip (lstrip s))).
  - apply rstrip_idempotent.
  - apply rstrip_start, lstrip_start.
Qed.

(** X19. The sentences are stripped when the document is split, and
    stripping is idempotent, so the [strip()] of the summary loop changes
    nothing: the summary is the selected sentences themselves, character
    for character. *)
Theorem summary_verbatim (normalize : string -> string)
  (doc_sents : list string) (kws : list keyword_entry) (f : R)
  (sel : list nat) :
  let sentences := stripped_sentences doc_sents in
  (1 <= List.length doc_sents)%nat ->
  nb_top_sentences (run normalize sentences kws f) = Some sel ->
  nb_summary (run normalize sentences kws f)
  = map (fun i => nth i sentences EmptyString) sel
  /\ (forall line, In line (nb_summary (run normalize sentences kws f)) ->
                   strip line = line).
Proof.
  intros sentences Hn Hsel.
  assert (Hlen : (1 <= List.length sentences)%nat)
    by (unfold sentences, stripped_sentences; now rewrite length_map).
  destruct (summary_of_selection normalize sentences kws f sel Hlen Hsel)
    as [_ Hsum].
  assert (Hfix : forall i, strip (nth i sentences EmptyString)
                           = nth i sentences EmptyString).
  { intros i. unfold sentences, stripped_sentences.
    replace (nth i (map strip doc_sents) EmptyString)
      with (strip (nth i doc_sents EmptyString))
      by (symmetry; exact (map_nth strip doc_sents EmptyString i)).
    apply strip_idempotent. }
  split.
  - rewrite Hsum. apply map_ext. exact Hfix.
  - intros line Hline. rewrite Hsum in Hline. apply in_map_iff in Hline.
    destruct Hline as [i [<- _]]. now rewrite !Hfix.
Qed.

Lemma single_stripped_scores :
  sentence_scores (yake_keywords_sorted [])
    (preprocess (fun s => s) (stripped_sentences [" only one. "%string]))
  = Ok [(0%nat, Fin 0)].
Proof.
  unfold sentence_scores, preprocess, stripped_sentences.
  cbn [map sentence_scores_from].
  rewrite score_sentence_spec.
  - cbn [bind]. unfold score_spec.
    rewrite keyword_sum_none by (intros kw []). now rewrite Rdiv_0_l.
  - intros kw [].
  - vm_compute; lia.
Qed.

Lemma summary_verbatim_witness :
  nb_summary
    (run (fun s => s) (stripped_sentences [" only one. "%string]) [] 1)
  = ["only one."%string].
Proof.
  destruct (summary_verbatim (fun s => s) [" only one. "%string] [] 1
              (top_sentences [(0%nat, Fin 0)] 1 1)) as [Hsum _].
  - simpl; lia.
  - now destruct (run_scored (fun s => s)
                    (stripped_sentences [" only one. "%string]) [] 1
                    _ single_stripped_scores) as [_ [Htop _]].
  - rewrite Hsum.
    destruct (single_sentence_selected (fun s => s) (strip " only one. ")
                [] 1 (top_sentences [(0%nat, Fin 0)] 1 1)) as [-> _].
    + now destruct (run_scored (fun s => s)
                      (stripped_sentences [" only one. "%string]) [] 1
                      _ single_stripped_scores) as [_ [Htop _]].
    + reflexivity.
Defined.

(** ** The text the keywords come from *)

Lemma string_app_assoc (a b c : string) :
  ((a ++ b) ++ c)%string = (a ++ b ++ c)%string.
Proof.
  induction a as [|x a IH]; simpl; [reflexivity|]. now rewrite IH.
Qed.

Lemma string_app_nil_r (a : string) : (a ++ "")%string = a.
Proof.
  induction a as [|x a IH]; simpl; [reflexivity|]. now rewrite IH.
Qed.

Lemma join_In (sep x : string) (l : list string) :
  In x l -> exists pre post, join sep l = (pre ++ x ++ post)%string.
Proof.
  induction l as [|y l IH]; intros Hx; [destruct Hx|].
  destruct l as [|z l].
  - destruct Hx as [->|[]]. exists EmptyString, EmptyString.
    simpl. now rewrite string_app_nil_r.
  - change (join sep (y :: z :: l))
      with ((y ++ sep ++ join sep (z :: l))%string).
    destruct Hx as [->|Hx].
    + exists EmptyString, (sep ++ join sep (z :: l))%string. reflexivity.
    + destruct (IH Hx) as [pre [post ->]].
      exists (y ++ sep ++ pre)%string, post.
      now rewrite !string_app_assoc.
Qed.

(** X20. A keyword that occurs in a processed sentence occurs in
    [text_processed], the text handed to the keyword extractor: only
    keywords found in that text can raise or lower a score. *)
Theorem keyword_in_text (processed : list string) (keyword sent : string) :
  In sent processed -> str_in keyword sent = true ->
  str_in keyword (text_processed processed) = true.
Proof.
  intros Hin Hocc. apply str_in_substring in Hocc.
  destruct Hocc as [a [b ->]].
  destruct (join_In " " _ _ Hin) as [pre [post Hjoin]].
  apply str_in_substring. unfold text_processed.
  exists (pre ++ a)%string, (b ++ post)%string.
  rewrite Hjoin. now rewrite !string_app_assoc.
Qed.

Lemma keyword_in_text_witness :
  str_in "beta" (text_processed example_sentences) = true.
Proof.
  apply (keyword_in_text example_sentences "beta" "alpha meets beta here").
  - unfold example_sentences. simpl. tauto.
  - reflexivity.
Defined.

(** ** The score dictionary and the first-sentence cell *)

(** X21. When the scoring cell runs to its end, [sentence_scores] has one
    entry per processed sentence, under the keys [0 .. n-1] in that order,
    and the entry under key [i] is the score of sentence [i]. *)
Theorem sentence_scores_entries (kws : list keyword_entry)
  (processed : list string) (scores : list (nat * float64)) :
  sentence_scores kws processed = Ok scores ->
  map fst scores = seq 0 (List.length processed)
  /\ (forall i sent,
        nth_error processed i = Some sent ->
        exists v, score_sentence kws sent = Ok v
                  /\ nth_error scores i = Some (i, v)).
Proof.
  intros Hs. split.
  - exact (sentence_scores_from_keys kws processed 0%nat scores Hs).
  - intros i sent Hi.
    exact (sentence_scores_from_nth kws processed 0%nat scores i sent Hs Hi).
Qed.

Lemma sentence_scores_entries_witness :
  map fst example_score_list
  = seq 0 (List.length (preprocess (fun s => s) example_sentences))
  /\ (forall i sent,
        nth_error (preprocess (fun s => s) example_sentences) i = Some sent ->
        exists v,
          score_sentence (yake_keywords_sorted scenario_keywords) sent = Ok v
          /\ nth_error example_score_list i = Some (i, v)).
Proof.
  apply (sentence_scores_entries (yake_keywords_sorted scenario_keywords)
           (preprocess (fun s => s) example_sentences) example_score_list).
  exact example_score_list_scored.
Defined.

(** X22. The first-sentence cell adds index 0 and nothing else, and
    running it again changes nothing: index 0 is never put in twice. *)
Theorem with_first_sentence_idempotent (top : list nat) :
  (forall i, In i (with_first_sentence top) <-> i = 0%nat \/ In i top)
  /\ with_first_sentence (with_first_sentence top) = with_first_sentence top.
Proof.
  split.
  - intros i.
    destruct (with_first_sentence_cases top) as [[Hin ->]|[Hnot ->]].
    + split; [now right|]. intros [->|Hi]; assumption.
    + simpl. split; intros [Hi|Hi]; auto.
  - apply with_first_sentence_present, with_first_sentence_In.
Qed.
